(** * pdf2docx: image extraction (pdf2docx/image/ImagesExtractor.py)

    A shallow embedding of [ImagesExtractor] and the properties of its
    raster and vector pipelines.

    Modelling conventions.
    - Python exceptions are the [Raise] outcome of [result]; mutation of the
      document (content streams rewritten by [_hide_page_text]) is explicit
      state passing over [Doc].
    - PyMuPDF ([fitz]) and OpenCV are external libraries.  Their opaque parts
      (rendering, PNG encoding, colour conversion, placement computation,
      contour detection) are variables of the section; their small
      documented parts ([Rect] predicates, [Pixmap.setAlpha], slicing) are
      written out after the API generation the source targets.
    - Coordinates are integers: contour boxes are integers by construction
      ([cv.boundingRect]), and the code only compares coordinates and takes
      minima and maxima of them. *)

From Stdlib Require Import ZArith Lia Bool QArith_base.
From Stdlib Require Import Strings.Byte.
From stdpp Require Import base option list strings gmap.

Close Scope Q_scope.
Open Scope Z_scope.

(** ** Exceptions *)

Inductive exn : Type := ValueError | RuntimeError.

Inductive result (A : Type) : Type :=
  | Ok (a : A)
  | Raise (e : exn).
Arguments Ok {A} a.
Arguments Raise {A} e.

#[global] Instance result_ret : MRet result := @Ok.
#[global] Instance result_bind : MBind result := λ A B f m,
  match m with Ok a => f a | Raise e => Raise e end.

(** ** fitz.Rect *)

Record Rect : Type := mkRect { x0 : Z; y0 : Z; x1 : Z; y1 : Z }.

#[global] Instance Rect_eq_dec : EqDecision Rect.
Proof. solve_decision. Defined.

(** [Rect.isEmpty]: the rectangle encloses no area. *)
Definition isEmpty (r : Rect) : bool := (x0 r =? x1 r) || (y0 r =? y1 r).

(** [Rect.isInfinite]: the bottom right corner is not south-east of the top
    left one. *)
Definition isInfinite (r : Rect) : bool := (x1 r <? x0 r) || (y1 r <? y0 r).

(** A box that encloses an area: [x0 < x1] and [y0 < y1]. *)
Definition non_degenerate (r : Rect) : Prop := x0 r < x1 r ∧ y0 r < y1 r.

Definition empty_rect : Rect := mkRect 0 0 0 0.

(** [fz_intersect_rect]. *)
Definition fz_intersect_rect (a b : Rect) : Rect :=
  if isEmpty a then empty_rect
  else if isEmpty b then empty_rect
  else if isInfinite b then a
  else if isInfinite a then b
  else
    let r := mkRect (Z.max (x0 a) (x0 b)) (Z.max (y0 a) (y0 b))
                    (Z.min (x1 a) (x1 b)) (Z.min (y1 a) (y1 b)) in
    if (x1 r <? x0 r) || (y1 r <? y0 r) then empty_rect else r.

(** [Rect.intersect(r)], on a copy of [self]. *)
Definition intersect (self r : Rect) : Rect :=
  if isInfinite r then self
  else if isInfinite self then r
  else if isEmpty r then r
  else if isEmpty self then self
  else fz_intersect_rect self r.

(** [a & b]. *)
Definition rect_and (a b : Rect) : Rect := intersect a b.

(** [bool(rect)]: false only for the all-zero rectangle. *)
Definition rect_bool (r : Rect) : bool :=
  negb ((Z.max (Z.max (x0 r) (y0 r)) (Z.max (x1 r) (y1 r)) =? 0)
        && (Z.min (Z.min (x0 r) (y0 r)) (Z.min (x1 r) (y1 r)) =? 0)).

(** [Rect.intersects(x)]. *)
Definition intersects (self x : Rect) : bool :=
  if isEmpty self || isInfinite self || isEmpty x || isInfinite x then false
  else negb (isEmpty (intersect self x)).

(** ** fitz.Colorspace and fitz.Pixmap *)

Record Colorspace : Type := mkColorspace { cs_name : string; cs_n : Z }.

Definition csGRAY : Colorspace := mkColorspace "DeviceGray" 1.
Definition csRGB : Colorspace := mkColorspace "DeviceRGB" 3.
Definition csCMYK : Colorspace := mkColorspace "DeviceCMYK" 4.

(** A pixel buffer.  Colour samples and alpha samples are kept in two planes;
    [samples] interleaves them as [Pixmap.samples] does. *)
Record Pixmap : Type := mkPixmap {
  colorspace : option Colorspace;
  width : Z;
  height : Z;
  colour : list byte;
  alpha : option (list byte)
}.

Definition pix_n (p : Pixmap) : nat :=
  match colorspace p with Some cs => Z.to_nat (cs_n cs) | None => 0%nat end.

Fixpoint interleave (n : nat) (col al : list byte) : list byte :=
  match al with
  | [] => []
  | a :: al' => take n col ++ a :: interleave n (drop n col) al'
  end.

Definition samples (p : Pixmap) : list byte :=
  match alpha p with
  | None => colour p
  | Some al => interleave (pix_n p) (colour p) al
  end.

Definition area (p : Pixmap) : nat := Z.to_nat (width p * height p).

(** [fitz.Pixmap(pix, 1)]: a copy with an alpha channel, opaque when the
    source had none. *)
Definition Pixmap_add_alpha (p : Pixmap) : Pixmap :=
  mkPixmap (colorspace p) (width p) (height p) (colour p)
    (Some (match alpha p with
           | Some al => al
           | None => replicate (area p) "255"%byte
           end)).

(** [fz_mul255(a, b)]: [x = a * b + 128; x += x >> 8; return x >> 8]. *)
Definition mul255 (a b : byte) : byte :=
  let x := (Byte.to_N a * Byte.to_N b + 128)%N in
  default "000"%byte (Byte.of_N (N.shiftr (x + N.shiftr x 8) 8)).

(** The colour samples with those of each pixel ([n] per pixel) multiplied
    by the alpha value of the pixel. *)
Fixpoint premultiply (n : nat) (col al : list byte) : list byte :=
  match al with
  | [] => col
  | a :: al' =>
      ((λ c, mul255 c a) <$> take n col) ++ premultiply n (drop n col) al'
  end.

(** [pix.setAlpha(ba)], with its default [premultiply=1]: needs an alpha
    channel and at least [width*height] values, of which the first
    [width*height] are stored; the colour samples of each pixel are
    multiplied by its new alpha value. *)
Definition setAlpha (p : Pixmap) (ba : list byte) : result Pixmap :=
  match alpha p with
  | None => Raise RuntimeError
  | Some _ =>
      if (length ba <? area p)%nat then Raise RuntimeError
      else
        let al := take (area p) ba in
        Ok (mkPixmap (colorspace p) (width p) (height p)
              (premultiply (pix_n p) (colour p) al) (Some al))
  end.

(** ** Images of a page and the document *)

(** An entry of [page.getImageList(full=True)]:
    [(xref, smask, width, height, bpc, colorspace, alt. colorspace, name,
      filter, referencer)]. *)
Record Item : Type := mkItem {
  xref : Z;
  smask : Z;
  i_width : Z;
  i_height : Z;
  bpc : Z;
  i_colorspace : string;
  i_alt_colorspace : string;
  i_name : string;
  i_filter : string;
  referencer : Z
}.

(** [item[-1] = 0]. *)
Definition set_last_0 (it : Item) : Item :=
  mkItem (xref it) (smask it) (i_width it) (i_height it) (bpc it)
    (i_colorspace it) (i_alt_colorspace it) (i_name it) (i_filter it) 0.

(** The document: its stream objects and its decodable image objects, by
    cross reference number. *)
Record Doc : Type := mkDoc {
  streams : gmap Z string;
  images : gmap Z Pixmap
}.

Record Page : Type := mkPage {
  contents : list Z;          (* page.get_contents() *)
  rect : Rect;                (* page.rect *)
  image_list : list Item      (* page.getImageList(full=True) *)
}.

(** [fitz.Pixmap(doc, xref)]. *)
Definition Pixmap_of_xref (doc : Doc) (x : Z) : result Pixmap :=
  match images doc !! x with
  | Some p => Ok p
  | None => Raise RuntimeError
  end.

(** ** The soft mask loop

    [for i in range(len(ba)): if ba[i] > 0: ba[i] = 255] *)

Definition byte_gt0 (b : byte) : bool := (0 <? Byte.to_N b)%N.

Definition binarize_at (ba : list byte) (i : nat) : list byte :=
  match ba !! i with
  | Some b => if byte_gt0 b then <[i := "255"%byte]> ba else ba
  | None => ba
  end.

Definition binarize (ba : list byte) : list byte :=
  foldl binarize_at ba (seq 0 (length ba)).

(** What the loop does to one sample. *)
Definition binarize1 (b : byte) : byte := if byte_gt0 b then "255"%byte else b.

(** ** Content streams

    [bytes.replace(old, new)] for a non-empty [old]: every occurrence, left
    to right and without overlap.  [skip] counts the bytes of a matched
    occurrence that are still to be dropped. *)

Fixpoint replace_from (old new s : string) (skip : nat) : string :=
  match s with
  | EmptyString => EmptyString
  | String c rest =>
      match skip with
      | S k => replace_from old new rest k
      | O =>
          if String.prefix old s
          then new +:+ replace_from old new rest (String.length old - 1)
          else String c (replace_from old new rest 0)
      end
  end.

Definition replace (old new s : string) : string := replace_from old new s 0.

(** [doc.updateStream(xref, stream)]. *)
Definition updateStream (doc : Doc) (x : Z) (stream : string) : Doc :=
  mkDoc (<[x := stream]> (streams doc)) (images doc).

(** The text of one stream with the rendering mode forced to 3. *)
Definition hide_text (stream : string) : string :=
  replace "Td" "Td 3 Tr" (replace "Tm" "Tm 3 Tr" (replace "BT" "BT 3 Tr" stream)).

(** The loop of [_hide_page_text] over [page.get_contents()]. *)
Fixpoint hide_streams (xs : list Z) (doc : Doc) : result unit * Doc :=
  match xs with
  | [] => (Ok (), doc)
  | x :: rest =>
      match streams doc !! x with
      | None => (Raise RuntimeError, doc)
      | Some st => hide_streams rest (updateStream doc x (hide_text st))
      end
  end.

Definition _hide_page_text (page : Page) (doc : Doc) : result unit * Doc :=
  hide_streams (contents page) doc.

(** ** Image records *)

Record ImageRecord : Type := mkImageRecord {
  r_type : Z;
  r_bbox : Rect;
  r_ext : string;
  r_width : Z;
  r_height : Z;
  r_image : list byte
}.

(** ** Contour regions and their grouping *)

(** Modelled from the spec: [Element] of [common/Element.py] is missing; a
    ContourRegion is "a detected BoundingBox plus no other state". *)
Record Element : Type := mkElement { bbox : Rect }.

(** Modelled from the spec: [Element().update_bbox(rect)] of
    [common/Element.py] is missing; it stores the given box. *)
Definition update_bbox (r : Rect) : Element := mkElement r.

Section Collection.

(** The adjacency predicate handed to [group]. *)
Variable adjacent : Element → Element → bool.

(** The pair [e], [m] is adjacent. *)
Definition linked (e m : Element) : bool := adjacent e m || adjacent m e.

(** [e] is adjacent to a member of the cluster [c]. *)
Definition touches (e : Element) (c : list Element) : bool :=
  existsb (linked e) c.

(** One more region: the clusters it touches are merged with it, the
    others are kept. *)
Definition add_region (e : Element) (groups : list (list Element))
    : list (list Element) :=
  (e :: concat (filter (λ c, touches e c) groups))
    :: filter (λ c, ¬ touches e c) groups.

(** Modelled from the spec: [Collection.group] of [common/Collection.py]
    is missing; it must "partition the ContourRegion set into connected
    clusters using pairwise bbox-intersection as the adjacency predicate
    (transitive closure: two regions in the same cluster if connected by
    a chain of pairwise-intersecting regions)". *)
Definition group (instances : list Element) : list (list Element) :=
  foldr add_region [] instances.

(** One link of a chain among the regions of [l]. *)
Definition link (l : list Element) (a b : Element) : Prop :=
  a ∈ l ∧ b ∈ l ∧ linked a b = true.

(** [a] and [b] are joined by a chain of pairwise adjacent regions of [l]. *)
Definition connected (l : list Element) : relation Element := rtc (link l).

(** The clusters [gs] are the classes of [connected l]. *)
Record partition_of (l : list Element) (gs : list (list Element)) : Prop := {
  part_cover : ∀ x, x ∈ l ↔ ∃ c, c ∈ gs ∧ x ∈ c;
  part_nonempty : ∀ c, c ∈ gs → c ≠ [];
  part_connected : ∀ c x y, c ∈ gs → x ∈ c → y ∈ c → connected l x y;
  part_closed : ∀ c c' x y,
    c ∈ gs → c' ∈ gs → x ∈ c → y ∈ c' → linked x y = true → c = c'
}.

End Collection.

(** The smallest box around two boxes. *)
Definition rect_union (a b : Rect) : Rect :=
  mkRect (Z.min (x0 a) (x0 b)) (Z.min (y0 a) (y0 b))
         (Z.max (x1 a) (x1 b)) (Z.max (y1 a) (y1 b)).

(** Modelled from the spec: the [bbox] property of [Collection] in
    [common/Collection.py] is missing; it is "the union of its members'
    boxes" (the null rectangle for no member). *)
Definition Collection_bbox (c : list Element) : Rect :=
  match c with
  | [] => empty_rect
  | e :: members => foldl rect_union (bbox e) (bbox <$> members)
  end.

(** [B] is the union of the boxes of [c]: it contains each of them and each
    of its sides is the side of one of them. *)
Definition union_of (c : list Element) (B : Rect) : Prop :=
  (∀ e, e ∈ c →
     x0 B ≤ x0 (bbox e) ∧ y0 B ≤ y0 (bbox e)
     ∧ x1 (bbox e) ≤ x1 B ∧ y1 (bbox e) ≤ y1 B)
  ∧ (∃ e, e ∈ c ∧ x0 B = x0 (bbox e))
  ∧ (∃ e, e ∈ c ∧ y0 B = y0 (bbox e))
  ∧ (∃ e, e ∈ c ∧ x1 B = x1 (bbox e))
  ∧ (∃ e, e ∈ c ∧ y1 B = y1 (bbox e)).

(** [fun = lambda a,b: a.bbox & b.bbox], as the truth value [group] reads. *)
Definition fun_ (a b : Element) : bool := rect_bool (rect_and (bbox a) (bbox b)).

(** ** Exclusion areas on the gray image *)

(** A gray image: rows of pixels. *)
Abbreviation Gray := (list (list byte)).

(** The bound of a slice [a:b] on an axis of length [len]: a negative
    bound counts from the end, and the result is clipped to [0..len]. *)
Definition slice_bound (i len : Z) : Z :=
  if i <? 0 then (if i + len <? 0 then 0 else i + len)
  else if len <=? i then len else i.

(** [l[start:stop] = ...] applied elementwise with [f]. *)
Definition set_slice {A : Type} (start stop : Z) (f : A → A) (l : list A)
    : list A :=
  let len := Z.of_nat (length l) in
  let a := slice_bound start len in
  let b := slice_bound stop len in
  imap (λ i x, if bool_decide (a ≤ Z.of_nat i < b) then f x else x) l.

(** [gray[y0-2:y1+2, x0-2:x1+2] = 255] for [x0, y0, x1, y1 = map(int, bbox)]. *)
Definition blank_area (gray : Gray) (b : Rect) : Gray :=
  set_slice (y0 b - 2) (y1 b + 2)
    (set_slice (x0 b - 2) (x1 b + 2) (λ _, "255"%byte)) gray.

(** The pixel of row [r] and column [c]. *)
Definition pixel (gray : Gray) (r c : nat) : option byte :=
  row ← gray !! r; row !! c.

(** Every row has [cols] pixels. *)
Definition rectangular (gray : Gray) (cols : nat) : Prop :=
  Forall (λ row, length row = cols) gray.

Section Extractor.

(** [BlockType.IMAGE.value], declared in [common/share.py]. *)
Variable BlockType_IMAGE : Z.

(** Sample conversion of [fitz.Pixmap(colorspace, pixmap)]. *)
Variable convert_colour : Colorspace → Pixmap → list byte.

(** [pixmap.getPNGData()]. *)
Variable getPNGData : Pixmap → list byte.

(** [page.getPixmap(clip=bbox, matrix=fitz.Matrix(zoom, zoom))]: the
    rendering reads the content streams of the document. *)
Variable getPixmap : Doc → Page → Rect → Q → Pixmap.

(** [page.getImageBbox(item)]; its placement failure is [ValueError]. *)
Variable getImageBbox : Doc → Page → Item → result Rect.

(** [fitz.Pixmap(cs, pix)]: same size, alpha kept. *)
Definition Pixmap_convert (cs : Colorspace) (p : Pixmap) : Pixmap :=
  mkPixmap (Some cs) (width p) (height p) (convert_colour cs p) (alpha p).

Definition _recover_pixmap (doc : Doc) (item : Item) : result Pixmap :=
  let x := xref item in
  let s := smask item in
  pix ← Pixmap_of_xref doc x;
  pix ← (if 0 <? s then
           let pix := Pixmap_add_alpha pix in
           m ← Pixmap_of_xref doc s;
           let ba := binarize (samples m) in
           setAlpha pix ba
         else Ok pix);
  match colorspace pix with
  | Some cs =>
      if negb (bool_decide (cs_name cs ∈ [cs_name csGRAY; cs_name csRGB]))
      then Ok (Pixmap_convert csRGB pix)
      else Ok pix
  | None => Ok pix
  end.

Definition _to_raw_dict (image : Pixmap) (bbox : Rect) : ImageRecord :=
  mkImageRecord BlockType_IMAGE bbox "png" (width image) (height image)
    (getPNGData image).

Definition _clip_page (page : Page) (bbox : option Rect) (zoom : Q)
    (doc : Doc) : result Pixmap * Doc :=
  match _hide_page_text page doc with
  | (Raise e, doc') => (Raise e, doc')
  | (Ok _, doc') =>
      let bbox := match bbox with
                  | None => rect page
                  | Some b => rect_and b (rect page)
                  end in
      (Ok (getPixmap doc' page bbox zoom), doc')
  end.

(** The body of the [for item in ...] loop of [extract_images], with the
    list [images] built so far. *)
Fixpoint extract_images_loop (page : Page) (clip_image_res_ratio : Q)
    (items : list Item) (images : list ImageRecord) (doc : Doc)
    : result (list ImageRecord) * Doc :=
  match items with
  | [] => (Ok images, doc)
  | item :: rest =>
      let item := set_last_0 item in
      match getImageBbox doc page item with
      | Raise ValueError =>
          extract_images_loop page clip_image_res_ratio rest images doc
      | Raise e => (Raise e, doc)
      | Ok bbox =>
          if negb (intersects bbox (rect page))
          then extract_images_loop page clip_image_res_ratio rest images doc
          else
            match _recover_pixmap doc item with
            | Raise e => (Raise e, doc)
            | Ok pix =>
                match (match colorspace pix with
                       | None => _clip_page page (Some bbox)
                                   clip_image_res_ratio doc
                       | Some _ => (Ok pix, doc)
                       end) with
                | (Raise e, doc') => (Raise e, doc')
                | (Ok pix, doc') =>
                    extract_images_loop page clip_image_res_ratio rest
                      (images ++ [_to_raw_dict pix bbox]) doc'
                end
            end
      end
  end.

Definition extract_images (page : Page) (clip_image_res_ratio : Q)
    (doc : Doc) : result (list ImageRecord) * Doc :=
  extract_images_loop page clip_image_res_ratio (image_list page) [] doc.

(** One iteration that takes a [continue]. *)
Definition skipped (page : Page) (item : Item) (doc : Doc) : Prop :=
  getImageBbox doc page (set_last_0 item) = Raise ValueError
  ∨ ∃ b, getImageBbox doc page (set_last_0 item) = Ok b
         ∧ intersects b (rect page) = false.

(** No reference of the list that the loop would process from the state
    [doc] reconstructs to a buffer without colour space. *)
Definition no_alpha_only (page : Page) (items : list Item) (doc : Doc) : Prop :=
  ∀ item b pix,
    item ∈ items →
    getImageBbox doc page (set_last_0 item) = Ok b →
    intersects b (rect page) = true →
    _recover_pixmap doc (set_last_0 item) = Ok pix →
    colorspace pix ≠ None.

(** A well-formed record: the box encloses an area, and the sizes are those
    of the buffer whose PNG data the record carries. *)
Definition record_ok (r : ImageRecord) : Prop :=
  non_degenerate (r_bbox r)
  ∧ ∃ pix, r_image r = getPNGData pix
           ∧ r_width r = width pix ∧ r_height r = height pix.

(** A record of the raster loop over [items]: tagged as an image in PNG,
    with the placement box of one of the references, a box that intersects
    the page. *)
Definition loop_record (page : Page) (items : list Item) (r : ImageRecord)
    : Prop :=
  r_type r = BlockType_IMAGE ∧ r_ext r = "png"
  ∧ intersects (r_bbox r) (rect page) = true
  ∧ ∃ item d, item ∈ items
              ∧ getImageBbox d page (set_last_0 item) = Ok (r_bbox r).

(** [cv.imdecode] of the PNG data followed by [cv.cvtColor(.., BGR2GRAY)]. *)
Variable decode_gray : list byte → Gray.

(** Gaussian blur, inverse threshold, morphological close and
    [cv.findContours], then [cv.boundingRect] of each contour:
    [(x, y, w, h)]. *)
Variable bounding_rects : Gray → list (Z * Z * Z * Z).

(** [cv.boundingRect] of a contour has a positive width and height. *)
Definition positive_rects : Prop :=
  ∀ gray x y w h, (x, y, w, h) ∈ bounding_rects gray → 0 < w ∧ 0 < h.

(** The contours found on the page whose text is hidden in [hidden]. *)
Definition contours_of (page : Page) (ex : list Rect) (hidden : Doc)
    : list (Z * Z * Z * Z) :=
  bounding_rects
    (foldl blank_area
       (decode_gray (getPNGData (getPixmap hidden page (rect page) 1%Q))) ex).

(** The debug overlay ([cv.rectangle] on [src], [cv.imshow], [cv.waitKey])
    does not reach the returned collection and is left out.  The imports
    and the OpenCV calls are taken to return: what is stated of this
    function and of [extract_vector_graphics] is about the calls that
    return, and about the document they leave. *)
Definition _detect_svg_contours (page : Page) (exclude_areas : list Rect)
    (doc : Doc) : result (list Element) * Doc :=
  match _clip_page page None 1%Q doc with
  | (Raise e, doc') => (Raise e, doc')
  | (Ok pix, doc') =>
      let gray := decode_gray (getPNGData pix) in
      let gray := foldl blank_area gray exclude_areas in
      let contours := bounding_rects gray in
      (Ok ((λ '(x, y, w, h), update_bbox (mkRect x y (x + w) (y + h)))
             <$> contours), doc')
  end.

Definition extract_vector_graphics (page : Page) (exclude_areas : list Rect)
    (clip_image_res_ratio : Q) (doc : Doc)
    : result (list ImageRecord) * Doc :=
  match _detect_svg_contours page exclude_areas doc with
  | (Raise e, doc') => (Raise e, doc')
  | (Ok contours, doc') =>
      let groups := group fun_ contours in
      (Ok ((λ g, let bbox := Collection_bbox g in
                 _to_raw_dict
                   (getPixmap doc' page bbox clip_image_res_ratio) bbox)
             <$> groups), doc')
  end.

End Extractor.

(** ** A concrete document, to run the model *)

Definition demo_convert (cs : Colorspace) (p : Pixmap) : list byte :=
  replicate (area p * Z.to_nat (cs_n cs)) "000"%byte.

Definition demo_png (p : Pixmap) : list byte := samples p.

Definition demo_render (doc : Doc) (page : Page) (clip : Rect) (zoom : Q)
    : Pixmap :=
  mkPixmap (Some csRGB) (x1 clip - x0 clip) (y1 clip - y0 clip) [] None.

(** Placement by cross reference number: 6 has no valid placement, 7 lies
    outside the page. *)
Definition demo_bbox (doc : Doc) (page : Page) (item : Item) : result Rect :=
  if xref item =? 6 then Raise ValueError
  else if xref item =? 7 then Ok (mkRect 700 900 800 1000)
  else if xref item =? 8 then Ok (mkRect 10 60 50 90)
  else Ok (mkRect 10 10 50 50).

Definition demo_item (x s : Z) : Item :=
  mkItem x s 2 1 8 "DeviceRGB" EmptyString "Im0" "FlateDecode" 0.

Definition demo_stream : string := "BT /F1 12 Tf 1 0 0 1 72 712 Tm (Hi) Tj ET".

Definition demo_doc : Doc :=
  mkDoc {[ 20 := demo_stream ]}
    {[ 5 := mkPixmap (Some csRGB) 2 1
              ["001"; "002"; "003"; "004"; "005"; "006"]%byte None;
       15 := mkPixmap (Some csGRAY) 2 1 ["128"; "128"]%byte None;
       8 := mkPixmap None 2 1 [] (Some ["255"; "000"]%byte);
       9 := mkPixmap (Some csCMYK) 1 1 ["010"; "020"; "030"; "040"]%byte None ]}.

Definition demo_page (items : list Item) : Page :=
  mkPage [20] (mkRect 0 0 612 792) items.

Definition demo_images (items : list Item) : result (list ImageRecord) * Doc :=
  extract_images 1 demo_convert demo_png demo_render demo_bbox
    (demo_page items) 3%Q demo_doc.

Definition box (a b c d : Z) : Element := mkElement (mkRect a b c d).

(** The same document with a content stream that only draws an image. *)
Definition demo_doc_no_text : Doc :=
  mkDoc {[ 20 := "q 200 0 0 100 10 10 cm /Im0 Do Q" ]} (images demo_doc).

Definition demo_decode_gray (png : list byte) : Gray :=
  replicate 20 (replicate 20 "255"%byte).

Definition demo_bounding_rects (gray : Gray) : list (Z * Z * Z * Z) :=
  [(0, 0, 10, 10); (5, 5, 10, 10)].

(** A 6 by 6 image covered with ink. *)
Definition demo_ink : Gray := replicate 6 (replicate 6 "000"%byte).

(** ** Predicates used to state the behaviour of the code *)

(** [old in s] for byte strings. *)
Fixpoint occursb (old s : string) : bool :=
  String.prefix old s
  || match s with
     | EmptyString => false
     | String _ rest => occursb old rest
     end.

(** The stream has none of the operators that [_hide_page_text] rewrites. *)
Definition no_text_operator (stream : string) : bool :=
  negb (occursb "BT" stream) && negb (occursb "Tm" stream)
  && negb (occursb "Td" stream).

(** [a] lies within [b]. *)
Definition inside (a b : Rect) : Prop :=
  x0 b ≤ x0 a ∧ y0 b ≤ y0 a ∧ x1 a ≤ x1 b ∧ y1 a ≤ y1 b.

(** The closed boxes [a] and [b] have a common point. *)
Definition overlap (a b : Rect) : Prop :=
  Z.max (x0 a) (x0 b) ≤ Z.min (x1 a) (x1 b)
  ∧ Z.max (y0 a) (y0 b) ≤ Z.min (y1 a) (y1 b).

(** Row [r], column [c] is in the box [b] padded by two pixels. *)
Definition in_padded (b : Rect) (r c : nat) : Prop :=
  (y0 b - 2 ≤ Z.of_nat r < y1 b + 2) ∧ (x0 b - 2 ≤ Z.of_nat c < x1 b + 2).

(** Row [r], column [c] is in the slices [y0-2:y1+2] and [x0-2:x1+2] of an
    image of [rows] by [cols] pixels. *)
Definition in_slices (rows cols : nat) (b : Rect) (r c : nat) : Prop :=
  (slice_bound (y0 b - 2) (Z.of_nat rows) ≤ Z.of_nat r
   < slice_bound (y1 b + 2) (Z.of_nat rows))
  ∧ (slice_bound (x0 b - 2) (Z.of_nat cols) ≤ Z.of_nat c
     < slice_bound (x1 b + 2) (Z.of_nat cols)).

(** * Properties *)

(** ** The soft mask loop computes [binarize1] on every sample *)

Lemma binarize_at_insert (ba : list byte) (i : nat) (b : byte) :
  ba !! i = Some b → binarize_at ba i = <[i := binarize1 b]> ba.
Proof.
  intros Hb. unfold binarize_at, binarize1. rewrite Hb.
  destruct (byte_gt0 b); [done|]. by rewrite list_insert_id.
Qed.

Lemma binarize_from (n k : nat) (ba : list byte) :
  (k + n)%nat = length ba →
  foldl binarize_at ba (seq k n) = take k ba ++ (binarize1 <$> drop k ba).
Proof.
  revert k ba. induction n as [|n IH]; intros k ba Hlen; simpl.
  - rewrite drop_ge by lia. rewrite take_ge by lia. by rewrite app_nil_r.
  - destruct (lookup_lt_is_Some_2 ba k) as [b Hb]; [lia|].
    rewrite (binarize_at_insert _ _ _ Hb).
    rewrite IH by (rewrite length_insert; lia).
    rewrite (take_S_r _ _ (binarize1 b)).
    2:{ apply list_lookup_insert_eq. lia. }
    rewrite take_insert_ge by lia.
    rewrite drop_insert_lt by lia.
    rewrite (drop_S ba b k Hb). simpl.
    by rewrite <- app_assoc.
Qed.

Lemma binarize_fmap (ba : list byte) : binarize ba = binarize1 <$> ba.
Proof. unfold binarize. by rewrite binarize_from. Qed.

Lemma binarize1_cases (b : byte) :
  (byte_gt0 b = true ∧ binarize1 b = "255"%byte)
  ∨ (b = "000"%byte ∧ binarize1 b = "000"%byte).
Proof. destruct b; (by left) || (by right). Qed.

(** ** Pixmap reconstruction *)

Lemma bind_Ok {A B : Type} (m : result A) (f : A → result B) (y : B) :
  m ≫= f = Ok y → ∃ x, m = Ok x ∧ f x = Ok y.
Proof. destruct m as [x|e]; [by exists x|done]. Qed.

Section Recover.

Variable convert_colour : Colorspace → Pixmap → list byte.

Local Abbreviation recover := (_recover_pixmap convert_colour).

Lemma Pixmap_of_xref_Ok (doc : Doc) (x : Z) (p : Pixmap) :
  Pixmap_of_xref doc x = Ok p → images doc !! x = Some p.
Proof. unfold Pixmap_of_xref. destruct (images doc !! x); congruence. Qed.

(** The colour space of the buffer is the one of the base image, or RGB
    after the conversion; the soft mask stage never changes it. *)
Lemma setAlpha_inv (p q : Pixmap) (ba : list byte) :
  setAlpha p ba = Ok q →
  colorspace q = colorspace p ∧ alpha q = Some (take (area p) ba).
Proof.
  unfold setAlpha. destruct (alpha p); [|done].
  destruct (length ba <? area p)%nat; [done|].
  intros [= <-]. done.
Qed.

(** The buffer after the soft mask stage, before the colour space test. *)
Lemma recover_stages (doc : Doc) (item : Item) (pix : Pixmap) :
  recover doc item = Ok pix →
  ∃ base mid,
    images doc !! xref item = Some base
    ∧ colorspace mid = colorspace base
    ∧ (if 0 <? smask item
       then ∃ m, images doc !! smask item = Some m
                 ∧ alpha mid = Some (take (area base) (binarize (samples m)))
       else mid = base)
    ∧ pix = match colorspace mid with
            | Some cs =>
                if negb (bool_decide (cs_name cs ∈ [cs_name csGRAY; cs_name csRGB]))
                then Pixmap_convert convert_colour csRGB mid
                else mid
            | None => mid
            end.
Proof.
  unfold _recover_pixmap. cbv zeta.
  intros (base & Hbase & (mid & Hmid & Hpix)%bind_Ok)%bind_Ok.
  apply Pixmap_of_xref_Ok in Hbase.
  exists base, mid. destruct (0 <? smask item).
  - apply bind_Ok in Hmid as (m & Hm%Pixmap_of_xref_Ok & Hset).
    apply setAlpha_inv in Hset as [Hcs Hal].
    split_and!; [done|done|by exists m|].
    destruct (colorspace mid) as [cs|]; [|congruence].
    destruct (negb _); congruence.
  - assert (mid = base) as -> by congruence. split_and!; [done..|].
    destruct (colorspace base) as [cs|]; [|congruence].
    destruct (negb _); congruence.
Qed.

(** C1. The buffer returned by [_recover_pixmap] has no colour space, or one
    named as Gray or RGB are; and a base image whose declared colour space
    has another name (CMYK, indexed) comes back converted to RGB. *)
Theorem recover_pixmap_colorspace (doc : Doc) (item : Item) (pix : Pixmap) :
  recover doc item = Ok pix →
  (colorspace pix = None
   ∨ ∃ cs, colorspace pix = Some cs
           ∧ (cs_name cs = cs_name csGRAY ∨ cs_name cs = cs_name csRGB))
  ∧ (∀ base cs, images doc !! xref item = Some base →
       colorspace base = Some cs →
       cs_name cs ≠ cs_name csGRAY → cs_name cs ≠ cs_name csRGB →
       colorspace pix = Some csRGB).
Proof.
  intros (base & mid & Hbase & Hcs & _ & ->)%recover_stages. split.
  - destruct (colorspace mid) as [cs|] eqn:Hmid; [|by left].
    right. case_bool_decide as Hin; cbn.
    + exists cs. split; [done|].
      apply elem_of_cons in Hin as [?|Hin]; [by left|].
      apply list_elem_of_singleton in Hin. by right.
    + exists csRGB. by split; [|right].
  - intros base' cs Hbase' Hcs' Hg Hr.
    assert (base' = base) as -> by congruence.
    rewrite Hcs, Hcs'. rewrite bool_decide_eq_false_2; [done|].
    intros Hin. apply elem_of_cons in Hin as [?|Hin]; [done|].
    by apply list_elem_of_singleton in Hin.
Qed.

Lemma setAlpha_extent (p q : Pixmap) (ba : list byte) :
  setAlpha p ba = Ok q →
  (area p ≤ length ba)%nat ∧ width q = width p ∧ height q = height p.
Proof.
  unfold setAlpha. destruct (alpha p); [|done].
  destruct (Nat.ltb_spec (length ba) (area p)); [done|].
  by intros [= <-].
Qed.

(** The soft mask stage: the mask has a sample for every pixel of the base
    image, and the first [width*height] binarised samples are the alpha
    channel of the returned buffer, which has the size of the base image. *)
Lemma recover_mask_stage (doc : Doc) (item : Item) (pix : Pixmap) :
  0 < smask item →
  recover doc item = Ok pix →
  ∃ base m,
    images doc !! xref item = Some base
    ∧ images doc !! smask item = Some m
    ∧ (area base ≤ length (samples m))%nat
    ∧ alpha pix = Some (take (area base) (binarize (samples m)))
    ∧ width pix = width base ∧ height pix = height base.
Proof.
  intros Hs%Z.ltb_lt. unfold _recover_pixmap. cbv zeta. rewrite Hs.
  intros (base & Hbase%Pixmap_of_xref_Ok & (mid & Hmid & Hpix)%bind_Ok)%bind_Ok.
  apply bind_Ok in Hmid as (m & Hm%Pixmap_of_xref_Ok & Hset).
  pose proof (setAlpha_extent _ _ _ Hset) as (Hext & Hw & Hh).
  apply setAlpha_inv in Hset as [_ Hal].
  rewrite binarize_fmap, length_fmap in Hext.
  exists base, m. split_and!; [done..| | |].
  - destruct (colorspace mid) as [cs|]; [|by injection Hpix as <-].
    destruct (negb _); by injection Hpix as <-.
  - destruct (colorspace mid) as [cs|]; [|by injection Hpix as <-].
    destruct (negb _); by injection Hpix as <-.
  - destruct (colorspace mid) as [cs|]; [|by injection Hpix as <-].
    destruct (negb _); by injection Hpix as <-.
Qed.

(** C2. With a soft mask ([smask > 0]) the returned buffer carries an alpha
    channel with one sample per pixel, made of the binarised mask samples
    in their order: each alpha sample is 0 or 255, it is 255 where the mask
    sample is above 0 and 0 where the mask sample is 0; a mask of samples
    128 gives an alpha channel of 255s. *)
Theorem recover_pixmap_alpha_binary (doc : Doc) (item : Item) (pix : Pixmap) :
  0 < smask item →
  recover doc item = Ok pix →
  ∃ m al,
    images doc !! smask item = Some m
    ∧ alpha pix = Some al
    ∧ al = take (area pix) (binarize1 <$> samples m)
    ∧ length al = area pix
    ∧ Forall (λ b, b = "000"%byte ∨ b = "255"%byte) al
    ∧ (∀ i b, al !! i = Some b →
         ∃ s, samples m !! i = Some s
              ∧ (byte_gt0 s = true → b = "255"%byte)
              ∧ (s = "000"%byte → b = "000"%byte))
    ∧ (Forall (λ s, s = "128"%byte) (samples m) →
       Forall (λ b, b = "255"%byte) al).
Proof.
  intros Hs (base & m & _ & Hm & Hext & Hal & Hw & Hh)%recover_mask_stage;
    [|done].
  assert (area pix = area base) as Harea by (unfold area; by rewrite Hw, Hh).
  rewrite binarize_fmap in Hal. rewrite <- Harea in Hal, Hext.
  exists m, (take (area pix) (binarize1 <$> samples m)).
  assert (∀ i b, take (area pix) (binarize1 <$> samples m) !! i = Some b →
            ∃ s, samples m !! i = Some s ∧ b = binarize1 s) as Hlook.
  { intros i b [Hb _]%lookup_take_Some.
    apply list_lookup_fmap_Some in Hb as (s & ? & ?). by exists s. }
  split_and!.
  - done.
  - done.
  - done.
  - rewrite length_take, length_fmap. lia.
  - apply Forall_lookup. intros i b (s & _ & ->)%Hlook.
    destruct (binarize1_cases s) as [[_ ->]|[_ ->]]; auto.
  - intros i b (s & Hsm & ->)%Hlook. exists s. split_and!; [done| |].
    + intros Hgt. unfold binarize1. by rewrite Hgt.
    + by intros ->.
  - intros Hall. apply Forall_lookup. intros i b (s & Hsm & ->)%Hlook.
    rewrite Forall_lookup in Hall. by rewrite (Hall _ _ Hsm).
Qed.

End Recover.

(** ** The raster pipeline *)

Section Raster.

Variable BlockType_IMAGE : Z.
Variable convert_colour : Colorspace → Pixmap → list byte.
Variable getPNGData : Pixmap → list byte.
Variable getPixmap : Doc → Page → Rect → Q → Pixmap.
Variable getImageBbox : Doc → Page → Item → result Rect.

Local Abbreviation recover := (_recover_pixmap convert_colour).
Local Abbreviation raw_dict := (_to_raw_dict BlockType_IMAGE getPNGData).
Local Abbreviation clip_page := (_clip_page getPixmap).
Local Abbreviation loop :=
  (extract_images_loop BlockType_IMAGE convert_colour getPNGData getPixmap
     getImageBbox).
Local Abbreviation images_of :=
  (extract_images BlockType_IMAGE convert_colour getPNGData getPixmap
     getImageBbox).
Local Abbreviation skipped := (skipped getImageBbox).
Local Abbreviation no_alpha_only :=
  (no_alpha_only convert_colour getImageBbox).
Local Abbreviation record_ok := (record_ok getPNGData).

(** The loop over a concatenation: the second part runs from the records
    and the document state the first part ends with, unless it raised. *)
Lemma loop_app (page : Page) (ratio : Q) (pre post : list Item)
    (acc : list ImageRecord) (doc : Doc) :
  loop page ratio (pre ++ post) acc doc =
  match loop page ratio pre acc doc with
  | (Ok acc', doc') => loop page ratio post acc' doc'
  | (Raise e, doc') => (Raise e, doc')
  end.
Proof.
  revert acc doc. induction pre as [|item pre IH]; intros acc doc; [done|].
  cbn [app extract_images_loop].
  destruct (getImageBbox doc page (set_last_0 item)) as [b|[]]; [|done..].
  destruct (negb (intersects b (rect page))); [done|].
  destruct (recover doc (set_last_0 item)) as [pix|]; [|done].
  destruct (match colorspace pix with
            | Some _ => _ | None => _ end) as [[pix'|] doc']; done.
Qed.


Lemma loop_skipped (page : Page) (ratio : Q) (item : Item)
    (rest : list Item) (acc : list ImageRecord) (doc : Doc) :
  skipped page item doc →
  loop page ratio (item :: rest) acc doc = loop page ratio rest acc doc.
Proof.
  intros [Hv|(b & Hb & Hi)]; cbn [extract_images_loop].
  - by rewrite Hv.
  - by rewrite Hb, Hi.
Qed.

Lemma images_skipped (page : Page) (ratio : Q) (pre post : list Item)
    (item : Item) (acc : list ImageRecord) (doc doc' : Doc) :
  image_list page = pre ++ item :: post →
  loop page ratio pre [] doc = (Ok acc, doc') →
  skipped page item doc' →
  images_of page ratio doc = loop page ratio post acc doc'
  ∧ images_of page ratio doc = loop page ratio (pre ++ post) [] doc.
Proof.
  intros Hl Hpre Hskip. unfold extract_images.
  rewrite Hl, !loop_app, Hpre. by rewrite loop_skipped.
Qed.

(** C7. A reference whose placement box computation raises [ValueError] is
    skipped: the call goes on with the remaining references, from the
    records and the document state reached before it, and its result is the
    one of the same loop without that reference. *)
Theorem extract_images_placement_failure (page : Page) (ratio : Q)
    (pre post : list Item) (item : Item) (acc : list ImageRecord)
    (doc doc' : Doc) :
  image_list page = pre ++ item :: post →
  loop page ratio pre [] doc = (Ok acc, doc') →
  getImageBbox doc' page (set_last_0 item) = Raise ValueError →
  images_of page ratio doc = loop page ratio post acc doc'
  ∧ images_of page ratio doc = loop page ratio (pre ++ post) [] doc.
Proof. intros Hl Hpre Hv. eapply images_skipped; [done..|by left]. Qed.

(** C5. A reference whose placement box does not intersect [page.rect]
    yields no record: the records built so far are handed on unchanged, and
    the result is the one of the same loop without that reference. *)
Theorem extract_images_outside_page (page : Page) (ratio : Q)
    (pre post : list Item) (item : Item) (b : Rect)
    (acc : list ImageRecord) (doc doc' : Doc) :
  image_list page = pre ++ item :: post →
  loop page ratio pre [] doc = (Ok acc, doc') →
  getImageBbox doc' page (set_last_0 item) = Ok b →
  intersects b (rect page) = false →
  images_of page ratio doc = loop page ratio post acc doc'
  ∧ images_of page ratio doc = loop page ratio (pre ++ post) [] doc.
Proof. intros Hl Hpre Hb Hi. eapply images_skipped; [done..|right; eauto]. Qed.

(** C6. For a reference on the page whose reconstructed buffer has no colour
    space, the record is made from the rendering of the page (text hidden)
    clipped to the box of the reference, at the given ratio; the
    reconstructed buffer does not reach the record. *)
Theorem extract_images_alpha_only (page : Page) (ratio : Q)
    (pre post : list Item) (item : Item) (b : Rect) (pix : Pixmap)
    (acc : list ImageRecord) (doc doc' hidden : Doc) :
  image_list page = pre ++ item :: post →
  loop page ratio pre [] doc = (Ok acc, doc') →
  getImageBbox doc' page (set_last_0 item) = Ok b →
  intersects b (rect page) = true →
  recover doc' (set_last_0 item) = Ok pix →
  colorspace pix = None →
  _hide_page_text page doc' = (Ok (), hidden) →
  clip_page page (Some b) ratio doc'
    = (Ok (getPixmap hidden page (rect_and b (rect page)) ratio), hidden)
  ∧ images_of page ratio doc =
    loop page ratio post
      (acc ++ [raw_dict (getPixmap hidden page (rect_and b (rect page)) ratio) b])
      hidden.
Proof.
  intros Hl Hpre Hb Hi Hpix Hcs Hhide.
  assert (clip_page page (Some b) ratio doc'
          = (Ok (getPixmap hidden page (rect_and b (rect page)) ratio), hidden))
    as Hclip.
  { unfold _clip_page. by rewrite Hhide. }
  split; [done|]. unfold extract_images.
  rewrite Hl, loop_app, Hpre. cbn [extract_images_loop].
  by rewrite Hb, Hi, Hpix, Hcs, Hclip.
Qed.


Lemma loop_frame (page : Page) (ratio : Q) (items : list Item)
    (acc : list ImageRecord) (doc : Doc) :
  no_alpha_only page items doc →
  (loop page ratio items acc doc).2 = doc.
Proof.
  revert acc. induction items as [|item items IH]; intros acc Hno; [done|].
  assert (no_alpha_only page items doc) as Hno'.
  { intros it b pix Hin. apply Hno. by right. }
  cbn [extract_images_loop].
  destruct (getImageBbox doc page (set_last_0 item)) as [b|[]] eqn:Hb;
    [|by apply IH|done].
  destruct (intersects b (rect page)) eqn:Hi; cbn [negb]; [|by apply IH].
  destruct (recover doc (set_last_0 item)) as [pix|] eqn:Hpix; [|done].
  destruct (colorspace pix) as [cs|] eqn:Hcs.
  - by apply IH.
  - exfalso. eapply Hno; [by left|done..].
Qed.

(** C3 (amended). [extract_images] leaves the document, and with it the
    content streams of the page, as it found them when no reference on the
    page reconstructs to a buffer without colour space. *)
Theorem extract_images_frame (page : Page) (ratio : Q) (doc : Doc) :
  no_alpha_only page (image_list page) doc →
  (images_of page ratio doc).2 = doc.
Proof. apply loop_frame. Qed.


Lemma intersects_non_degenerate (a b : Rect) :
  intersects a b = true → non_degenerate a.
Proof.
  unfold intersects, isEmpty, isInfinite, non_degenerate.
  destruct (x0 a =? x1 a) eqn:?, (y0 a =? y1 a) eqn:?,
    (x1 a <? x0 a) eqn:?, (y1 a <? y0 a) eqn:?; cbn; try done.
  intros _. lia.
Qed.

Lemma raw_dict_ok (pix : Pixmap) (b : Rect) :
  non_degenerate b → record_ok (raw_dict pix b).
Proof. intros Hb. split; [done|]. by exists pix. Qed.

Lemma loop_records_ok (page : Page) (ratio : Q) (items : list Item)
    (acc recs : list ImageRecord) (doc doc' : Doc) :
  Forall record_ok acc →
  loop page ratio items acc doc = (Ok recs, doc') →
  Forall record_ok recs.
Proof.
  revert acc doc. induction items as [|item items IH]; intros acc doc Hacc.
  { cbn. by intros [= <- _]. }
  cbn [extract_images_loop].
  destruct (getImageBbox doc page (set_last_0 item)) as [b|[]] eqn:Hb;
    [|by apply IH|done].
  destruct (intersects b (rect page)) eqn:Hi; cbn [negb]; [|by apply IH].
  apply intersects_non_degenerate in Hi.
  destruct (recover doc (set_last_0 item)) as [pix|] eqn:Hpix; [|done].
  destruct (match colorspace pix with
            | Some _ => _ | None => _ end) as [[pix'|] doc1]; [|done].
  apply IH. apply Forall_app. split; [done|].
  apply Forall_singleton. by apply raw_dict_ok.
Qed.

End Raster.

(** ** Region grouping *)

Lemma elem_of_concat {A : Type} (x : A) (ls : list (list A)) :
  x ∈ concat ls ↔ ∃ l, l ∈ ls ∧ x ∈ l.
Proof.
  induction ls as [|l ls IH]; cbn.
  - split; [by intros ?%elem_of_nil|by intros (? & ?%elem_of_nil & _)].
  - rewrite elem_of_app, IH. split.
    + intros [?|(l' & ? & ?)]; [exists l|exists l']; split; try done;
        by constructor.
    + intros (l' & [->|?]%elem_of_cons & ?); [by left|right; eauto].
Qed.

Section Grouping.

Variable adj : Element → Element → bool.


Lemma linked_sym (a b : Element) : linked adj a b = linked adj b a.
Proof. unfold linked. apply orb_comm. Qed.

Lemma link_sym (l : list Element) (a b : Element) : link adj l a b → link adj l b a.
Proof. intros (? & ? & ?). split_and!; [done..|]. by rewrite linked_sym. Qed.

Lemma connected_sym (l : list Element) (a b : Element) :
  connected adj l a b → connected adj l b a.
Proof.
  induction 1 as [|a b c Hab _ IH]; [done|].
  eapply rtc_r; [done|]. by apply link_sym.
Qed.

Lemma connected_mono (l l' : list Element) (a b : Element) :
  (∀ x, x ∈ l → x ∈ l') → connected adj l a b → connected adj l' a b.
Proof.
  intros Hsub. apply rtc_subrel. intros x y (? & ? & ?).
  split_and!; auto.
Qed.

Lemma touches_spec (e : Element) (c : list Element) :
  touches adj e c = true ↔ ∃ m, m ∈ c ∧ linked adj e m = true.
Proof.
  unfold touches. induction c as [|m c IH]; cbn.
  - split; [done|by intros (? & ?%elem_of_nil & _)].
  - rewrite orb_true_iff, IH. split.
    + intros [?|(m' & ? & ?)]; [exists m|exists m']; split; try done;
        by constructor.
    + intros (m' & [->|?]%elem_of_cons & ?); [by left|right; eauto].
Qed.

Lemma elem_of_add_region (e : Element) (gs : list (list Element))
    (c : list Element) :
  c ∈ add_region adj e gs ↔
  c = e :: concat (filter (λ c, touches adj e c) gs)
  ∨ (c ∈ gs ∧ touches adj e c = false).
Proof.
  unfold add_region. rewrite elem_of_cons, list_elem_of_filter.
  rewrite Is_true_true, not_true_iff_false. tauto.
Qed.

Lemma elem_of_merged (e x : Element) (gs : list (list Element)) :
  x ∈ e :: concat (filter (λ c, touches adj e c) gs) ↔
  x = e ∨ ∃ c, c ∈ gs ∧ touches adj e c = true ∧ x ∈ c.
Proof.
  rewrite elem_of_cons, elem_of_concat.
  setoid_rewrite list_elem_of_filter. setoid_rewrite Is_true_true.
  split; (intros [?|(c & ? & ?)]; [by left|right; exists c; tauto]).
Qed.

Lemma add_region_partition (e : Element) (l : list Element)
    (gs : list (list Element)) :
  partition_of adj l gs → partition_of adj (e :: l) (add_region adj e gs).
Proof.
  intros [Hcov Hne Hconn Hclosed].
  assert (∀ x, x ∈ l → x ∈ e :: l) as Hsub by (by right).
  assert (∀ x, x ∈ e :: concat (filter (λ c, touches adj e c) gs) →
               connected adj (e :: l) e x) as Hhub.
  { intros x [->|(c & Hc & Ht & Hx)]%elem_of_merged; [done|].
    apply touches_spec in Ht as (m & Hm & Hl).
    eapply rtc_l.
    - split_and!; [by left| |done]. apply Hsub, Hcov. eauto.
    - eapply connected_mono; [done|]. by eapply Hconn. }
  assert (∀ c x y, c ∈ gs → touches adj e c = false → y ∈ c →
            x ∈ e :: concat (filter (λ c, touches adj e c) gs) →
            linked adj x y = true → False) as Hcross.
  { intros c x y Hc Ht Hy [->|(c0 & Hc0 & Ht0 & Hx)]%elem_of_merged Hl.
    - assert (touches adj e c = true) by (apply touches_spec; eauto). congruence.
    - assert (c0 = c) by (by eapply Hclosed). congruence. }
  split.
  - intros x. rewrite elem_of_cons. split.
    + intros [->|Hx].
      * eexists. split; [apply elem_of_add_region; by left|by left].
      * apply Hcov in Hx as (c & Hc & Hx).
        destruct (touches adj e c) eqn:Ht.
        -- eexists. split; [apply elem_of_add_region; by left|].
           apply elem_of_merged. right. eauto.
        -- exists c. split; [|done]. apply elem_of_add_region. by right.
    + intros (c & [->|[Hc _]]%elem_of_add_region & Hx).
      * apply elem_of_merged in Hx as [?|(c & ? & _ & ?)]; [by left|].
        right. apply Hcov. eauto.
      * right. apply Hcov. eauto.
  - intros c [->|[Hc _]]%elem_of_add_region; [done|by apply Hne].
  - intros c x y [->|[Hc _]]%elem_of_add_region Hx Hy.
    + etrans; [apply connected_sym|]; by apply Hhub.
    + eapply connected_mono; [done|]. by eapply Hconn.
  - intros c c' x y [->|[Hc Ht]]%elem_of_add_region
      [->|[Hc' Ht']]%elem_of_add_region Hx Hy Hl.
    + done.
    + by destruct (Hcross c' x y).
    + rewrite linked_sym in Hl. by destruct (Hcross c y x).
    + by eapply Hclosed.
Qed.

(** [group] partitions the regions into the classes of [connected]. *)
Lemma group_partition (l : list Element) : partition_of adj l (group adj l).
Proof.
  induction l as [|e l IH]; [|by apply add_region_partition].
  split.
  - intros x. split; [by intros ?%elem_of_nil|].
    by intros (? & ?%elem_of_nil & _).
  - by intros c ?%elem_of_nil.
  - by intros c x y ?%elem_of_nil.
  - by intros c c' x y ?%elem_of_nil.
Qed.

(** A chain never leaves a cluster. *)
Lemma partition_chain (l : list Element) (gs : list (list Element))
    (c : list Element) (x y : Element) :
  partition_of adj l gs → c ∈ gs → x ∈ c → connected adj l x y → y ∈ c.
Proof.
  intros [Hcov _ _ Hclosed] Hc Hx Hxy.
  induction Hxy as [|x z y (_ & Hz & Hl) _ IH]; [done|].
  apply IH. apply Hcov in Hz as (c' & Hc' & Hz).
  by rewrite (Hclosed c c' x z).
Qed.

(** The spec's words: two regions are in the same cluster exactly when a
    chain of pairwise adjacent regions joins them. *)
Lemma group_same_cluster (l c : list Element) (x y : Element) :
  c ∈ group adj l → x ∈ c → y ∈ c ↔ y ∈ l ∧ connected adj l x y.
Proof.
  intros Hc Hx. pose proof (group_partition l) as Hp. split.
  - intros Hy. split; [apply Hp; eauto|]. by eapply (part_connected _ _ _ Hp).
  - intros [_ Hxy]. by eapply partition_chain.
Qed.

Lemma connected_ext (l l' : list Element) (x y : Element) :
  (∀ e, e ∈ l ↔ e ∈ l') → connected adj l x y → connected adj l' x y.
Proof. intros Hll. apply connected_mono. intros e. apply Hll. Qed.

(** The clusters depend on the set of regions only. *)
Lemma group_ext (l l' c : list Element) :
  (∀ e, e ∈ l ↔ e ∈ l') →
  c ∈ group adj l → ∃ c', c' ∈ group adj l' ∧ ∀ e, e ∈ c ↔ e ∈ c'.
Proof.
  intros Hll Hc.
  pose proof (group_partition l) as Hp. pose proof (group_partition l') as Hp'.
  assert (∃ x, x ∈ c) as [x Hx].
  { destruct c as [|x c]; [by destruct (part_nonempty _ _ _ Hp [])|].
    exists x. by left. }
  assert (x ∈ l') as (c' & Hc' & Hx')%(part_cover _ _ _ Hp').
  { apply Hll, Hp. eauto. }
  exists c'. split; [done|]. intros e.
  rewrite (group_same_cluster l c x e), (group_same_cluster l' c' x e) by done.
  rewrite Hll. split; (intros [? ?]; split; [done|]);
    (eapply connected_ext; [|done]); intros e'; by rewrite Hll.
Qed.

End Grouping.

(** ** The box of a cluster *)


Lemma union_of_singleton (e : Element) : union_of [e] (bbox e).
Proof.
  split_and!; [|by exists e; split; [left|]..].
  intros e' ->%list_elem_of_singleton. lia.
Qed.

Lemma union_of_snoc (c : list Element) (B : Rect) (m : Element) :
  union_of c B → union_of (c ++ [m]) (rect_union B (bbox m)).
Proof.
  intros (Hall & (e0 & H0 & E0) & (e1 & H1 & E1) & (e2 & H2 & E2)
          & (e3 & H3 & E3)).
  assert (m ∈ c ++ [m]) as Hm by (apply elem_of_app; right; by left).
  assert (∀ e, e ∈ c → e ∈ c ++ [m]) as Hc
    by (intros e ?; apply elem_of_app; by left).
  unfold rect_union. split_and!; cbn.
  - intros e [He| ->%list_elem_of_singleton]%elem_of_app; [|lia].
    specialize (Hall e He). lia.
  - destruct (Z.min_spec (x0 B) (x0 (bbox m))) as [[_ ->]|[_ ->]];
      [exists e0|exists m]; auto.
  - destruct (Z.min_spec (y0 B) (y0 (bbox m))) as [[_ ->]|[_ ->]];
      [exists e1|exists m]; auto.
  - destruct (Z.max_spec (x1 B) (x1 (bbox m))) as [[_ ->]|[_ ->]];
      [exists m|exists e2]; auto.
  - destruct (Z.max_spec (y1 B) (y1 (bbox m))) as [[_ ->]|[_ ->]];
      [exists m|exists e3]; auto.
Qed.

Lemma union_of_foldl (ms c : list Element) (B : Rect) :
  union_of c B → union_of (c ++ ms) (foldl rect_union B (bbox <$> ms)).
Proof.
  revert c B. induction ms as [|m ms IH]; intros c B HB; cbn.
  - by rewrite app_nil_r.
  - rewrite (cons_middle m c ms), app_assoc. by apply IH, union_of_snoc.
Qed.

(** [Collection_bbox] is the union of the members' boxes. *)
Lemma Collection_bbox_union (c : list Element) :
  c ≠ [] → union_of c (Collection_bbox c).
Proof.
  destruct c as [|e ms]; [done|]. intros _.
  apply (union_of_foldl ms [e]), union_of_singleton.
Qed.

Lemma union_of_ext (c c' : list Element) (B : Rect) :
  (∀ e, e ∈ c ↔ e ∈ c') → union_of c B → union_of c' B.
Proof.
  intros Hcc (Hall & (e0 & H0 & E0) & (e1 & H1 & E1) & (e2 & H2 & E2)
              & (e3 & H3 & E3)).
  split_and!; [|exists e0|exists e1|exists e2|exists e3];
    try (split; [by apply Hcc|done]).
  intros e He. by apply Hall, Hcc.
Qed.

Lemma union_of_unique (c : list Element) (B B' : Rect) :
  union_of c B → union_of c B' → B = B'.
Proof.
  intros (Hall & (e0 & H0 & E0) & (e1 & H1 & E1) & (e2 & H2 & E2)
          & (e3 & H3 & E3))
         (Hall' & (f0 & G0 & F0) & (f1 & G1 & F1) & (f2 & G2 & F2)
          & (f3 & G3 & F3)).
  pose proof (Hall f0 G0). pose proof (Hall f1 G1).
  pose proof (Hall f2 G2). pose proof (Hall f3 G3).
  pose proof (Hall' e0 H0). pose proof (Hall' e1 H1).
  pose proof (Hall' e2 H2). pose proof (Hall' e3 H3).
  destruct B, B'; cbn in *. f_equal; lia.
Qed.

(** The box of a cluster depends on the set of its members only. *)
Lemma Collection_bbox_ext (c c' : list Element) :
  c ≠ [] → (∀ e, e ∈ c ↔ e ∈ c') → Collection_bbox c = Collection_bbox c'.
Proof.
  intros Hne Hcc. assert (c' ≠ []) as Hne'.
  { destruct c as [|e c]; [done|]. intros ->.
    by apply (elem_of_nil e), Hcc; left. }
  eapply (union_of_unique c'); [|by apply Collection_bbox_union].
  eapply union_of_ext; [done|]. by apply Collection_bbox_union.
Qed.

Lemma union_of_non_degenerate (c : list Element) (B : Rect) :
  Forall (λ e, non_degenerate (bbox e)) c → union_of c B → non_degenerate B.
Proof.
  rewrite Forall_forall. intros Hnd (Hall & (e0 & H0 & E0) & (e1 & H1 & E1) & _).
  pose proof (Hnd e0 H0) as [? _]. pose proof (Hnd e1 H1) as [_ ?].
  pose proof (Hall e0 H0). pose proof (Hall e1 H1).
  unfold non_degenerate. lia.
Qed.

(** C8. Grouping does not depend on the order of the contour regions: after
    a permutation of the list every cluster has a cluster with the same
    members and the same box, so both lists give the same set of cluster
    boxes. *)
Theorem group_order_independent (l l' : list Element) :
  l ≡ₚ l' →
  (∀ c, c ∈ group fun_ l →
     ∃ c', c' ∈ group fun_ l' ∧ (∀ e, e ∈ c ↔ e ∈ c')
           ∧ Collection_bbox c = Collection_bbox c')
  ∧ (∀ B, B ∈ Collection_bbox <$> group fun_ l
          ↔ B ∈ Collection_bbox <$> group fun_ l').
Proof.
  intros Hperm.
  assert (∀ l l', l ≡ₚ l' → ∀ c, c ∈ group fun_ l →
     ∃ c', c' ∈ group fun_ l' ∧ (∀ e, e ∈ c ↔ e ∈ c')
           ∧ Collection_bbox c = Collection_bbox c') as Hone.
  { clear. intros l l' Hperm c Hc.
    destruct (group_ext fun_ l l' c) as (c' & Hc' & Hcc); [|done|].
    { intros e. by rewrite Hperm. }
    exists c'. split_and!; [done..|].
    apply Collection_bbox_ext; [|done].
    by apply (part_nonempty _ _ _ (group_partition fun_ l)). }
  split; [by apply Hone|].
  intros B. rewrite !list_elem_of_fmap. split.
  - intros (c & -> & (c' & ? & _ & ?)%(Hone l l' Hperm)). eauto.
  - symmetry in Hperm.
    intros (c & -> & (c' & ? & _ & ?)%(Hone l' l Hperm)). eauto.
Qed.

(** C4 (amended). When [A] is adjacent to [B] and [B] to [C], the three
    regions are in one cluster, and no other cluster holds any of them.  The
    box of that cluster is the union of the boxes of all its members; it is
    the union of the three boxes when the contour set has no other region. *)
Theorem group_transitive (l : list Element) (A B C : Element) :
  A ∈ l → B ∈ l → C ∈ l →
  fun_ A B = true → fun_ B C = true →
  ∃ c, c ∈ group fun_ l
       ∧ (A ∈ c ∧ B ∈ c ∧ C ∈ c)
       ∧ (∀ c', c' ∈ group fun_ l → A ∈ c' ∨ B ∈ c' ∨ C ∈ c' → c' = c)
       ∧ union_of c (Collection_bbox c)
       ∧ ((∀ e, e ∈ l → e = A ∨ e = B ∨ e = C) →
          Collection_bbox c
          = rect_union (rect_union (bbox A) (bbox B)) (bbox C)).
Proof.
  intros HA HB HC HAB HBC.
  pose proof (group_partition fun_ l) as Hp.
  assert (linked fun_ A B = true) as LAB by (unfold linked; by rewrite HAB).
  assert (linked fun_ B C = true) as LBC by (unfold linked; by rewrite HBC).
  destruct (proj1 (part_cover _ _ _ Hp A) HA) as (c & Hc & HAc).
  assert (B ∈ c) as HBc.
  { eapply partition_chain; [done..|]. by apply rtc_once. }
  assert (C ∈ c) as HCc.
  { eapply partition_chain; [done| |exact HBc|]; [done|]. by apply rtc_once. }
  exists c. split_and!; try done.
  - intros c' Hc' HABC.
    destruct HABC as [HA'|[HB'|HC']].
    + by eapply (part_closed _ _ _ Hp c' c A B).
    + by eapply (part_closed _ _ _ Hp c' c B C).
    + eapply (part_closed _ _ _ Hp c' c C B); [done..|].
      by rewrite linked_sym.
  - apply Collection_bbox_union. by apply (part_nonempty _ _ _ Hp).
  - intros Honly.
    change (rect_union (rect_union (bbox A) (bbox B)) (bbox C))
      with (Collection_bbox [A; B; C]).
    apply Collection_bbox_ext; [by apply (part_nonempty _ _ _ Hp)|].
    intros e. split.
    + intros He. assert (e ∈ l) as Hel by (apply Hp; eauto).
      destruct (Honly e Hel) as [-> | [-> | ->]]; set_solver.
    + intros [-> | [-> | ->%list_elem_of_singleton]%elem_of_cons]%elem_of_cons;
        done.
Qed.

(** ** Blanking of the exclusion areas *)

Lemma lookup_set_slice {A : Type} (start stop : Z) (f : A → A) (l : list A)
    (i : nat) :
  set_slice start stop f l !! i =
  (λ x, if bool_decide (slice_bound start (Z.of_nat (length l)) ≤ Z.of_nat i
                        < slice_bound stop (Z.of_nat (length l)))
        then f x else x) <$> l !! i.
Proof. unfold set_slice. by rewrite list_lookup_imap. Qed.

Ltac slice_bounds :=
  unfold slice_bound;
  repeat match goal with
         | |- context [?a <? ?b] => destruct (Z.ltb_spec a b)
         | |- context [?a <=? ?b] => destruct (Z.leb_spec a b)
         end;
  lia.

(** A non-negative lower bound and an upper bound beyond the index: the
    index is in the slice. *)
Lemma slice_bound_inside (start stop len i : Z) :
  0 ≤ start → start ≤ i < stop → i < len →
  slice_bound start len ≤ i < slice_bound stop len.
Proof. intros. slice_bounds. Qed.

(** A negative lower bound that wraps around: the slice starts at
    [start + len]. *)
Lemma slice_bound_wraps (start len : Z) :
  start < 0 → 0 ≤ start + len → slice_bound start len = start + len.
Proof. intros. slice_bounds. Qed.

Lemma pixel_blank_area (gray : Gray) (b : Rect) (r c : nat) :
  pixel (blank_area gray b) r c =
  row ← gray !! r;
  if bool_decide (slice_bound (y0 b - 2) (Z.of_nat (length gray)) ≤ Z.of_nat r
                  < slice_bound (y1 b + 2) (Z.of_nat (length gray)))
  then set_slice (x0 b - 2) (x1 b + 2) (λ _, "255"%byte) row !! c
  else row !! c.
Proof.
  unfold pixel, blank_area. rewrite lookup_set_slice.
  destruct (gray !! r) as [row|]; [cbn|done]. by case_bool_decide.
Qed.

Lemma pixel_blank_area_slices (gray : Gray) (cols : nat) (b : Rect)
    (r c : nat) (v : byte) :
  rectangular gray cols →
  pixel gray r c = Some v →
  pixel (blank_area gray b) r c
  = Some (if decide (in_slices (length gray) cols b r c)
          then "255"%byte else v).
Proof.
  intros Hrect. unfold rectangular in Hrect. rewrite Forall_lookup in Hrect.
  rewrite pixel_blank_area. unfold pixel, in_slices.
  destruct (gray !! r) as [row|] eqn:Hrow; [cbn|done]. intros Hv.
  rewrite lookup_set_slice, Hv, (Hrect _ _ Hrow). cbn.
  case_bool_decide as Hr; [case_bool_decide as Hc|].
  - by rewrite decide_True.
  - rewrite decide_False; [done|]. by intros [_ ?].
  - rewrite decide_False; [done|]. by intros [? _].
Qed.

(** C10 (amended). The blanking of an exclusion box sets to white exactly the
    pixels in the slices [y0-2:y1+2] and [x0-2:x1+2], a negative bound
    counting from the end of its axis and being clipped to 0 when it is
    still negative.  So for a box with [x0 >= 2] and [y0 >= 2], and also
    where the bound [x0-2] (or [y0-2]) is below [-cols] (or [-rows]) and
    clipped to 0, every pixel of the image in rows [y0-2..y1+1] and columns
    [x0-2..x1+1] becomes white.  For a box with [x0 < 2] whose bound wraps
    into the image ([0 <= x0-2+cols]) the column slice starts at
    [x0-2+cols]: every pixel in a column before that one keeps its value;
    likewise for the rows when [y0 < 2] and [0 <= y0-2+rows]. *)
Theorem blank_area_near_edges (gray : Gray) (cols : nat) (b : Rect) :
  rectangular gray cols →
  (∀ (r c : nat) (v : byte),
     pixel gray r c = Some v →
     pixel (blank_area gray b) r c
     = Some (if decide (in_slices (length gray) cols b r c)
             then "255"%byte else v))
  ∧ (2 ≤ x0 b ∨ x0 b - 2 + Z.of_nat cols < 0 →
     2 ≤ y0 b ∨ y0 b - 2 + Z.of_nat (length gray) < 0 →
     ∀ r c : nat, (r < length gray)%nat → (c < cols)%nat →
       y0 b - 2 ≤ Z.of_nat r < y1 b + 2 →
       x0 b - 2 ≤ Z.of_nat c < x1 b + 2 →
       pixel (blank_area gray b) r c = Some "255"%byte)
  ∧ (x0 b < 2 → 0 ≤ x0 b - 2 + Z.of_nat cols →
     ∀ r c : nat, Z.of_nat c < x0 b - 2 + Z.of_nat cols →
       pixel (blank_area gray b) r c = pixel gray r c)
  ∧ (y0 b < 2 → 0 ≤ y0 b - 2 + Z.of_nat (length gray) →
     ∀ r c : nat, Z.of_nat r < y0 b - 2 + Z.of_nat (length gray) →
       pixel (blank_area gray b) r c = pixel gray r c).
Proof.
  intros Hrect. split; [intros r c v; by apply pixel_blank_area_slices|].
  unfold rectangular in Hrect. rewrite Forall_lookup in Hrect. split_and!.
  - intros Hx Hy r c Hr Hc Hrow Hcol. rewrite pixel_blank_area.
    destruct (lookup_lt_is_Some_2 gray r Hr) as [row Hrw]. rewrite Hrw. cbn.
    pose proof (Hrect _ _ Hrw) as Hlen.
    rewrite bool_decide_eq_true_2 by slice_bounds.
    rewrite lookup_set_slice.
    destruct (lookup_lt_is_Some_2 row c) as [v Hv]; [lia|]. rewrite Hv. cbn.
    rewrite Hlen.
    by rewrite bool_decide_eq_true_2 by slice_bounds.
  - intros Hx Hwrap r c Hc. rewrite pixel_blank_area. unfold pixel.
    destruct (gray !! r) as [row|] eqn:Hrw; [cbn|done].
    case_bool_decide; [|done]. rewrite lookup_set_slice.
    rewrite (Hrect _ _ Hrw), slice_bound_wraps by lia.
    destruct (row !! c) as [v|]; [cbn|done].
    by rewrite bool_decide_eq_false_2 by lia.
  - intros Hy Hwrap r c Hr. rewrite pixel_blank_area. unfold pixel.
    destruct (gray !! r) as [row|] eqn:Hrw; [cbn|done].
    rewrite slice_bound_wraps by lia.
    by rewrite bool_decide_eq_false_2 by lia.
Qed.

(** ** The records of both pipelines *)

Section Records.

Variable BlockType_IMAGE : Z.
Variable convert_colour : Colorspace → Pixmap → list byte.
Variable getPNGData : Pixmap → list byte.
Variable getPixmap : Doc → Page → Rect → Q → Pixmap.
Variable getImageBbox : Doc → Page → Item → result Rect.
Variable decode_gray : list byte → Gray.
Variable bounding_rects : Gray → list (Z * Z * Z * Z).


Lemma detected_non_degenerate (page : Page) (exclude_areas : list Rect)
    (doc doc' : Doc) (contours : list Element) :
  positive_rects bounding_rects →
  _detect_svg_contours getPNGData getPixmap decode_gray bounding_rects
    page exclude_areas doc = (Ok contours, doc') →
  Forall (λ e, non_degenerate (bbox e)) contours.
Proof.
  intros Hpos. unfold _detect_svg_contours.
  destruct (_clip_page _ _ _ _ _) as [[pix|e] d]; [|done].
  intros [= <- _]. apply Forall_fmap, Forall_forall.
  intros [[[x y] w] h] Hin. destruct (Hpos _ _ _ _ _ Hin).
  unfold non_degenerate. cbn. lia.
Qed.

(** C9. Every record of [extract_images] and, for contours with a positive
    width and height, every record of [extract_vector_graphics] has a box
    with [x0 < x1] and [y0 < y1], and its width and height are those of the
    buffer whose PNG data it carries. *)
Theorem records_well_formed (page : Page) (exclude_areas : list Rect)
    (ratio : Q) (doc : Doc) :
  positive_rects bounding_rects →
  (∀ recs doc',
     extract_images BlockType_IMAGE convert_colour getPNGData getPixmap
       getImageBbox page ratio doc = (Ok recs, doc') →
     Forall (record_ok getPNGData) recs)
  ∧ (∀ recs doc',
     extract_vector_graphics BlockType_IMAGE getPNGData getPixmap decode_gray
       bounding_rects page exclude_areas ratio doc = (Ok recs, doc') →
     Forall (record_ok getPNGData) recs).
Proof.
  intros Hpos. split; intros recs doc'.
  - by apply loop_records_ok.
  - unfold extract_vector_graphics.
    destruct (_detect_svg_contours _ _ _ _ _ _ _) as [[contours|e] d] eqn:Hdet;
      [|done].
    apply detected_non_degenerate in Hdet; [|done].
    intros [= <- _]. apply Forall_fmap, Forall_forall. intros g Hg. cbn.
    pose proof (group_partition fun_ contours) as Hp.
    apply raw_dict_ok.
    apply (union_of_non_degenerate g).
    + apply Forall_forall. intros e He.
      rewrite Forall_forall in Hdet. apply Hdet, Hp. eauto.
    + apply Collection_bbox_union. by apply (part_nonempty _ _ _ Hp).
Qed.

End Records.

(** * The model on the concrete document *)

Lemma recover_pixmap_colorspace_witness :
  ∃ pix, _recover_pixmap demo_convert demo_doc (demo_item 9 0) = Ok pix
    ∧ (colorspace pix = None
       ∨ ∃ cs, colorspace pix = Some cs
               ∧ (cs_name cs = cs_name csGRAY ∨ cs_name cs = cs_name csRGB))
    ∧ (∀ base cs, images demo_doc !! xref (demo_item 9 0) = Some base →
         colorspace base = Some cs →
         cs_name cs ≠ cs_name csGRAY → cs_name cs ≠ cs_name csRGB →
         colorspace pix = Some csRGB).
Proof.
  eexists. split; [vm_compute; reflexivity|].
  apply (recover_pixmap_colorspace demo_convert demo_doc (demo_item 9 0)).
  vm_compute. reflexivity.
Defined.

Lemma recover_pixmap_alpha_binary_witness :
  ∃ pix, _recover_pixmap demo_convert demo_doc (demo_item 5 15) = Ok pix
    ∧ ∃ m al,
        images demo_doc !! smask (demo_item 5 15) = Some m
        ∧ alpha pix = Some al
        ∧ al = take (area pix) (binarize1 <$> samples m)
        ∧ length al = area pix
        ∧ Forall (λ b, b = "000"%byte ∨ b = "255"%byte) al
        ∧ (∀ i b, al !! i = Some b →
             ∃ s, samples m !! i = Some s
                  ∧ (byte_gt0 s = true → b = "255"%byte)
                  ∧ (s = "000"%byte → b = "000"%byte))
        ∧ (Forall (λ s, s = "128"%byte) (samples m) →
           Forall (λ b, b = "255"%byte) al).
Proof.
  eexists. split; [vm_compute; reflexivity|].
  apply (recover_pixmap_alpha_binary demo_convert demo_doc (demo_item 5 15)).
  - reflexivity.
  - vm_compute. reflexivity.
Defined.

(** The scenario of the spec: a soft mask whose samples are all 128 gives an
    alpha channel of 255s. *)
Example recover_pixmap_mask_128 :
  _recover_pixmap demo_convert demo_doc (demo_item 5 15)
  = Ok (mkPixmap (Some csRGB) 2 1
          ["001"; "002"; "003"; "004"; "005"; "006"]%byte
          (Some ["255"; "255"]%byte)).
Proof. vm_compute. reflexivity. Qed.

Lemma extract_images_placement_failure_witness :
  ∃ acc doc',
    extract_images_loop 1 demo_convert demo_png demo_render demo_bbox
      (demo_page [demo_item 5 0; demo_item 6 0; demo_item 5 15]) 3%Q
      [demo_item 5 0] [] demo_doc = (Ok acc, doc')
    ∧ demo_images [demo_item 5 0; demo_item 6 0; demo_item 5 15]
      = extract_images_loop 1 demo_convert demo_png demo_render demo_bbox
          (demo_page [demo_item 5 0; demo_item 6 0; demo_item 5 15]) 3%Q
          [demo_item 5 15] acc doc'
    ∧ demo_images [demo_item 5 0; demo_item 6 0; demo_item 5 15]
      = extract_images_loop 1 demo_convert demo_png demo_render demo_bbox
          (demo_page [demo_item 5 0; demo_item 6 0; demo_item 5 15]) 3%Q
          ([demo_item 5 0] ++ [demo_item 5 15]) [] demo_doc.
Proof.
  eexists _, _. split; [vm_compute; reflexivity|].
  apply (extract_images_placement_failure 1 demo_convert demo_png demo_render
           demo_bbox _ _ [demo_item 5 0] [demo_item 5 15] (demo_item 6 0));
    vm_compute; reflexivity.
Defined.

Lemma extract_images_outside_page_witness :
  ∃ acc doc',
    extract_images_loop 1 demo_convert demo_png demo_render demo_bbox
      (demo_page [demo_item 5 0; demo_item 7 0; demo_item 5 15]) 3%Q
      [demo_item 5 0] [] demo_doc = (Ok acc, doc')
    ∧ intersects (mkRect 700 900 800 1000) (mkRect 0 0 612 792) = false
    ∧ demo_images [demo_item 5 0; demo_item 7 0; demo_item 5 15]
      = extract_images_loop 1 demo_convert demo_png demo_render demo_bbox
          (demo_page [demo_item 5 0; demo_item 7 0; demo_item 5 15]) 3%Q
          [demo_item 5 15] acc doc'
    ∧ demo_images [demo_item 5 0; demo_item 7 0; demo_item 5 15]
      = extract_images_loop 1 demo_convert demo_png demo_render demo_bbox
          (demo_page [demo_item 5 0; demo_item 7 0; demo_item 5 15]) 3%Q
          ([demo_item 5 0] ++ [demo_item 5 15]) [] demo_doc.
Proof.
  eexists _, _. split; [vm_compute; reflexivity|]. split; [reflexivity|].
  apply (extract_images_outside_page 1 demo_convert demo_png demo_render
           demo_bbox _ _ [demo_item 5 0] [demo_item 5 15] (demo_item 7 0)
           (mkRect 700 900 800 1000));
    vm_compute; reflexivity.
Defined.

(** An image outside the page between two images on it: two records. *)
Example extract_images_outside_page_run :
  (λ r, (r_bbox r, r_width r, r_height r)) <$>
    match (demo_images [demo_item 5 0; demo_item 7 0; demo_item 5 15]).1 with
    | Ok recs => recs
    | Raise _ => []
    end
  = [(mkRect 10 10 50 50, 2, 1); (mkRect 10 10 50 50, 2, 1)].
Proof. vm_compute. reflexivity. Qed.

Lemma extract_images_alpha_only_witness :
  ∃ acc hidden,
    _hide_page_text (demo_page [demo_item 5 0; demo_item 8 0]) demo_doc
      = (Ok (), hidden)
    ∧ streams hidden !! 20
      = Some "BT 3 Tr /F1 12 Tf 1 0 0 1 72 712 Tm 3 Tr (Hi) Tj ET"
    ∧ _clip_page demo_render (demo_page [demo_item 5 0; demo_item 8 0])
        (Some (mkRect 10 60 50 90)) 3%Q demo_doc
      = (Ok (demo_render hidden (demo_page [demo_item 5 0; demo_item 8 0])
               (rect_and (mkRect 10 60 50 90)
                  (rect (demo_page [demo_item 5 0; demo_item 8 0]))) 3%Q),
         hidden)
    ∧ demo_images [demo_item 5 0; demo_item 8 0]
      = extract_images_loop 1 demo_convert demo_png demo_render demo_bbox
          (demo_page [demo_item 5 0; demo_item 8 0]) 3%Q []
          (acc ++ [_to_raw_dict 1 demo_png
                     (demo_render hidden
                        (demo_page [demo_item 5 0; demo_item 8 0])
                        (rect_and (mkRect 10 60 50 90)
                           (rect (demo_page [demo_item 5 0; demo_item 8 0])))
                        3%Q)
                     (mkRect 10 60 50 90)])
          hidden.
Proof.
  eexists _, _. split; [vm_compute; reflexivity|].
  split; [vm_compute; reflexivity|].
  apply (extract_images_alpha_only 1 demo_convert demo_png demo_render
           demo_bbox _ _ [demo_item 5 0] [] (demo_item 8 0)
           (mkRect 10 60 50 90)
           (mkPixmap None 2 1 [] (Some ["255"; "000"]%byte)) _ demo_doc
           demo_doc);
    vm_compute; reflexivity.
Defined.

Lemma extract_images_frame_witness :
  (demo_images [demo_item 5 0; demo_item 6 0; demo_item 9 0]).2 = demo_doc.
Proof.
  apply (extract_images_frame 1 demo_convert demo_png demo_render demo_bbox
           (demo_page [demo_item 5 0; demo_item 6 0; demo_item 9 0]) 3%Q
           demo_doc).
  intros item b pix Hin Hb _ Hpix.
  apply list_elem_of_In in Hin. simpl in Hin.
  destruct Hin as [<-|[<-|[<-|[]]]]; vm_compute in Hb, Hpix;
    try discriminate Hb; injection Hpix as <-; discriminate.
Defined.

(** C3 fails where an image carries alpha values only: the call returns a
    record and leaves the content stream of the page rewritten. *)
Lemma extract_images_frame_counterexample :
  ¬ (∀ (BlockType_IMAGE : Z) convert_colour getPNGData getPixmap getImageBbox
       (page : Page) (ratio : Q) (doc doc' : Doc) (recs : list ImageRecord),
       extract_images BlockType_IMAGE convert_colour getPNGData getPixmap
         getImageBbox page ratio doc = (Ok recs, doc') →
       doc' = doc).
Proof.
  intros Hframe.
  pose proof (Hframe 1 demo_convert demo_png demo_render demo_bbox
                (demo_page [demo_item 8 0]) 3%Q demo_doc
                (demo_images [demo_item 8 0]).2
                [_to_raw_dict 1 demo_png
                   (mkPixmap (Some csRGB) 40 30 [] None)
                   (mkRect 10 60 50 90)]) as Hsame.
  assert (streams (demo_images [demo_item 8 0]).2 !! 20
          = streams demo_doc !! 20) as Hstream.
  { rewrite Hsame; [done|]. vm_compute. reflexivity. }
  vm_compute in Hstream. discriminate Hstream.
Qed.

(** The run behind it. *)
Example extract_images_hides_text :
  streams demo_doc !! 20 = Some "BT /F1 12 Tf 1 0 0 1 72 712 Tm (Hi) Tj ET"
  ∧ streams (demo_images [demo_item 8 0]).2 !! 20
    = Some "BT 3 Tr /F1 12 Tf 1 0 0 1 72 712 Tm 3 Tr (Hi) Tj ET".
Proof. split; vm_compute; reflexivity. Qed.

Lemma group_order_independent_witness :
  (∀ c, c ∈ group fun_ [box 0 0 10 10; box 8 0 20 10; box 50 50 60 60] →
     ∃ c', c' ∈ group fun_ [box 8 0 20 10; box 0 0 10 10; box 50 50 60 60]
           ∧ (∀ e, e ∈ c ↔ e ∈ c')
           ∧ Collection_bbox c = Collection_bbox c')
  ∧ (∀ B, B ∈ Collection_bbox
               <$> group fun_ [box 0 0 10 10; box 8 0 20 10; box 50 50 60 60]
          ↔ B ∈ Collection_bbox
               <$> group fun_ [box 8 0 20 10; box 0 0 10 10; box 50 50 60 60]).
Proof.
  apply (group_order_independent
           [box 0 0 10 10; box 8 0 20 10; box 50 50 60 60]
           [box 8 0 20 10; box 0 0 10 10; box 50 50 60 60]).
  apply perm_swap.
Defined.

(** The scenario of the spec: two overlapping contours give one cluster. *)
Example group_two_overlapping :
  Collection_bbox <$> group fun_ [box 0 0 10 10; box 5 5 15 15]
  = [mkRect 0 0 15 15].
Proof. vm_compute. reflexivity. Qed.

Lemma group_transitive_witness :
  fun_ (box 0 0 10 10) (box 18 0 30 10) = false
  ∧ ∃ c, c ∈ group fun_ [box 0 0 10 10; box 18 0 30 10; box 8 0 20 10]
       ∧ (box 0 0 10 10 ∈ c ∧ box 8 0 20 10 ∈ c ∧ box 18 0 30 10 ∈ c)
       ∧ (∀ c', c' ∈ group fun_ [box 0 0 10 10; box 18 0 30 10; box 8 0 20 10] →
            box 0 0 10 10 ∈ c' ∨ box 8 0 20 10 ∈ c' ∨ box 18 0 30 10 ∈ c' →
            c' = c)
       ∧ union_of c (Collection_bbox c)
       ∧ ((∀ e, e ∈ [box 0 0 10 10; box 18 0 30 10; box 8 0 20 10] →
             e = box 0 0 10 10 ∨ e = box 8 0 20 10 ∨ e = box 18 0 30 10) →
          Collection_bbox c
          = rect_union (rect_union (bbox (box 0 0 10 10)) (bbox (box 8 0 20 10)))
              (bbox (box 18 0 30 10))).
Proof.
  split; [reflexivity|].
  apply (group_transitive [box 0 0 10 10; box 18 0 30 10; box 8 0 20 10]
           (box 0 0 10 10) (box 8 0 20 10) (box 18 0 30 10));
    try reflexivity; apply list_elem_of_In; simpl; tauto.
Defined.

(** Three chained contours alone: one cluster, whose box is the union of the
    three. *)
Example group_three_chained :
  Collection_bbox
    <$> group fun_ [box 0 0 10 10; box 18 0 30 10; box 8 0 20 10]
  = [mkRect 0 0 30 10].
Proof. vm_compute. reflexivity. Qed.

(** C4 fails for a contour set with a fourth region joined to the chain: the
    box of the cluster is larger than the union of the three boxes. *)
Lemma group_transitive_counterexample :
  ¬ (∀ (l : list Element) (A B C : Element),
       A ∈ l → B ∈ l → C ∈ l →
       fun_ A B = true → fun_ B C = true → fun_ A C = false →
       ∃ c, c ∈ group fun_ l ∧ A ∈ c ∧ B ∈ c ∧ C ∈ c
            ∧ Collection_bbox c
              = rect_union (rect_union (bbox A) (bbox B)) (bbox C)).
Proof.
  intros Hclaim.
  destruct (Hclaim
              [box 0 0 10 10; box 8 0 20 10; box 18 0 30 10; box 25 5 40 20]
              (box 0 0 10 10) (box 8 0 20 10) (box 18 0 30 10))
    as (c & Hc & _ & _ & _ & Hbox);
    try reflexivity; try (apply list_elem_of_In; simpl; tauto).
  vm_compute in Hc. apply list_elem_of_singleton in Hc as ->.
  vm_compute in Hbox. discriminate Hbox.
Qed.

(** The run behind it. *)
Example group_four_chained :
  Collection_bbox
    <$> group fun_
          [box 0 0 10 10; box 8 0 20 10; box 18 0 30 10; box 25 5 40 20]
  = [mkRect 0 0 40 20]
  ∧ rect_union (rect_union (mkRect 0 0 10 10) (mkRect 8 0 20 10))
      (mkRect 18 0 30 10) = mkRect 0 0 30 10.
Proof. split; vm_compute; reflexivity. Qed.

Lemma blank_area_near_edges_witness :
  pixel (blank_area demo_ink (mkRect 3 3 4 4)) 3 3 = Some "255"%byte
  ∧ pixel (blank_area demo_ink (mkRect (-10) 3 1 4)) 3 0 = Some "255"%byte
  ∧ pixel (blank_area demo_ink (mkRect 1 3 2 4)) 3 1 = pixel demo_ink 3 1
  ∧ pixel (blank_area demo_ink (mkRect 3 0 4 2)) 0 3 = pixel demo_ink 0 3
  ∧ pixel (blank_area demo_ink (mkRect (-3) 3 1 4)) 3 2
    = Some (if decide (in_slices (length demo_ink) 6 (mkRect (-3) 3 1 4) 3 2)
            then "255"%byte else "000"%byte).
Proof.
  assert (rectangular demo_ink 6) as Hrect by (repeat constructor).
  split_and!.
  - apply (proj1 (proj2 (blank_area_near_edges demo_ink 6 (mkRect 3 3 4 4)
                           Hrect))); cbn; lia.
  - apply (proj1 (proj2 (blank_area_near_edges demo_ink 6
                           (mkRect (-10) 3 1 4) Hrect))); cbn; lia.
  - apply (proj1 (proj2 (proj2 (blank_area_near_edges demo_ink 6
                                  (mkRect 1 3 2 4) Hrect)))); cbn; lia.
  - apply (proj2 (proj2 (proj2 (blank_area_near_edges demo_ink 6
                                  (mkRect 3 0 4 2) Hrect)))); cbn; lia.
  - apply (proj1 (blank_area_near_edges demo_ink 6 (mkRect (-3) 3 1 4)
                    Hrect)). reflexivity.
Defined.

(** C10 fails for a box so far to the left that the bound [x0-2] is clipped
    to 0: on the image covered with ink the box [(-10, 3, 1, 4)] has
    [x0 < 2], and no ink is left in rows [1..5] and columns [0..2]. *)
Lemma blank_area_near_edges_counterexample :
  ¬ (∀ (gray : Gray) (cols : nat) (b : Rect),
       rectangular gray cols →
       x0 b < 2 ∨ y0 b < 2 →
       (∃ (r c : nat) (v : byte),
          in_padded b r c ∧ pixel gray r c = Some v ∧ v ≠ "255"%byte) →
       ∃ (r c : nat) (v : byte),
         in_padded b r c ∧ pixel gray r c = Some v ∧ v ≠ "255"%byte
         ∧ pixel (blank_area gray b) r c = Some v).
Proof.
  intros Hclaim.
  destruct (Hclaim demo_ink 6%nat (mkRect (-10) 3 1 4))
    as (r & c & v & Hin & Hv & Hne & Hkeep).
  - repeat constructor.
  - left. simpl. lia.
  - exists 3%nat, 0%nat, "000"%byte. split_and!; [|done..].
    unfold in_padded. simpl. lia.
  - unfold in_padded in Hin. simpl in Hin.
    destruct r as [|[|[|[|[|[|r]]]]]]; try lia;
      destruct c as [|[|[|c]]]; try lia;
      vm_compute in Hv, Hkeep; congruence.
Qed.

(** The run behind it, and two boxes whose bound wraps: the box
    [(-3, 3, 1, 4)] blanks columns 1 and 2 only, the box [(1, 3, 2, 4)]
    nothing. *)
Example blank_area_clipped_and_wrapped :
  blank_area demo_ink (mkRect (-10) 3 1 4)
  = [replicate 6 "000"; ["255"; "255"; "255"; "000"; "000"; "000"];
     ["255"; "255"; "255"; "000"; "000"; "000"];
     ["255"; "255"; "255"; "000"; "000"; "000"];
     ["255"; "255"; "255"; "000"; "000"; "000"];
     ["255"; "255"; "255"; "000"; "000"; "000"]]%byte
  ∧ blank_area demo_ink (mkRect (-3) 3 1 4)
    = [replicate 6 "000"; ["000"; "255"; "255"; "000"; "000"; "000"];
       ["000"; "255"; "255"; "000"; "000"; "000"];
       ["000"; "255"; "255"; "000"; "000"; "000"];
       ["000"; "255"; "255"; "000"; "000"; "000"];
       ["000"; "255"; "255"; "000"; "000"; "000"]]%byte.
Proof. split; vm_compute; reflexivity. Qed.

(** The ink under a box at the left edge stays: nothing of the image is
    blanked. *)
Example blank_area_left_edge :
  blank_area demo_ink (mkRect 1 3 2 4) = demo_ink
  ∧ pixel demo_ink 3 1 = Some "000"%byte.
Proof. split; vm_compute; reflexivity. Qed.

Lemma records_well_formed_witness :
  (∀ recs doc',
     extract_images 1 demo_convert demo_png demo_render demo_bbox
       (demo_page [demo_item 5 0; demo_item 8 0]) 3%Q demo_doc
     = (Ok recs, doc') →
     Forall (record_ok demo_png) recs)
  ∧ (∀ recs doc',
     extract_vector_graphics 1 demo_png demo_render demo_decode_gray
       demo_bounding_rects (demo_page [demo_item 5 0; demo_item 8 0])
       [mkRect 10 10 50 50] 3%Q demo_doc = (Ok recs, doc') →
     Forall (record_ok demo_png) recs).
Proof.
  apply (records_well_formed 1 demo_convert demo_png demo_render demo_bbox
           demo_decode_gray demo_bounding_rects).
  intros gray x y w h Hin. apply list_elem_of_In in Hin. simpl in Hin.
  destruct Hin as [[= <- <- <- <-]|[[= <- <- <- <-]|[]]]; lia.
Defined.

(** The two contours of the concrete detection overlap: one record. *)
Example extract_vector_graphics_run :
  (λ r, (r_bbox r, r_width r, r_height r)) <$>
    match (extract_vector_graphics 1 demo_png demo_render demo_decode_gray
             demo_bounding_rects (demo_page []) [mkRect 10 10 50 50] 3%Q
             demo_doc).1 with
    | Ok recs => recs
    | Raise _ => []
    end
  = [(mkRect 0 0 15 15, 15, 15)].
Proof. vm_compute. reflexivity. Qed.

(** * Further properties of the code *)

(** ** [bytes.replace] and the hiding of text *)

Lemma string_length_app (s t : string) :
  String.length (s +:+ t) = (String.length s + String.length t)%nat.
Proof. induction s as [|c s IH]; simpl; [done|]. by f_equal. Qed.

Lemma replace_from_absent (old new s : string) :
  occursb old s = false → replace_from old new s 0 = s.
Proof.
  induction s as [|c s IH]; [done|].
  cbn [occursb replace_from]. intros [Hp Hs]%orb_false_iff.
  rewrite Hp. by rewrite IH.
Qed.

Lemma replace_from_length (old new s : string) (k : nat) :
  (1 ≤ String.length old ≤ String.length new)%nat →
  (String.length s ≤ String.length (replace_from old new s k) + k)%nat.
Proof.
  intros Hlen. revert k. induction s as [|c s IH]; intros k; [cbn; lia|].
  cbn [replace_from]. destruct k as [|k].
  - destruct (String.prefix old (String c s)).
    + rewrite string_length_app. cbn [String.length].
      specialize (IH (String.length old - 1)%nat). lia.
    + cbn [String.length]. specialize (IH 0%nat). lia.
  - cbn [String.length]. specialize (IH k). lia.
Qed.

Lemma replace_from_longer (old new s : string) :
  (1 ≤ String.length old < String.length new)%nat →
  occursb old s = true →
  (String.length s < String.length (replace_from old new s 0))%nat.
Proof.
  intros Hlen. induction s as [|c s IH].
  - cbn. destruct old; [cbn in Hlen; lia|done].
  - cbn [occursb replace_from].
    destruct (String.prefix old (String c s)) eqn:Hp.
    + intros _. rewrite string_length_app. cbn [String.length].
      pose proof (replace_from_length old new s (String.length old - 1)).
      lia.
    + cbn [orb String.length]. intros Hs%IH. lia.
Qed.

(** [bytes.replace(old, new)] returns the string itself when [old] does not
    occur in it. *)
Lemma replace_absent (old new s : string) :
  occursb old s = false → replace old new s = s.
Proof. apply replace_from_absent. Qed.

(** When [new] is at least as long as a non-empty [old],
    [bytes.replace(old, new)] never shortens the string, and it lengthens it
    when [new] is longer and [old] occurs. *)
Lemma replace_length (old new s : string) :
  (1 ≤ String.length old ≤ String.length new)%nat →
  (String.length s ≤ String.length (replace old new s))%nat
  ∧ ((String.length old < String.length new)%nat → occursb old s = true →
     (String.length s < String.length (replace old new s))%nat).
Proof.
  intros Hlen. split.
  - pose proof (replace_from_length old new s 0 Hlen). unfold replace. lia.
  - intros Hlt Hocc. apply replace_from_longer; [lia|done].
Qed.

Lemma hide_text_length (stream : string) :
  (String.length stream ≤ String.length (hide_text stream))%nat.
Proof.
  unfold hide_text, replace.
  pose proof (replace_from_length "BT" "BT 3 Tr" stream 0).
  pose proof (replace_from_length "Tm" "Tm 3 Tr"
                (replace_from "BT" "BT 3 Tr" stream 0) 0).
  pose proof (replace_from_length "Td" "Td 3 Tr"
                (replace_from "Tm" "Tm 3 Tr"
                   (replace_from "BT" "BT 3 Tr" stream 0) 0) 0).
  cbn in *. lia.
Qed.

Lemma hide_text_same_length (stream : string) :
  String.length (hide_text stream) = String.length stream →
  no_text_operator stream = true.
Proof.
  unfold no_text_operator, hide_text, replace. intros Hfix.
  rewrite !andb_true_iff, !negb_true_iff.
  pose proof (replace_from_length "BT" "BT 3 Tr" stream 0) as L1.
  pose proof (replace_from_length "Tm" "Tm 3 Tr"
                (replace_from "BT" "BT 3 Tr" stream 0) 0) as L2.
  pose proof (replace_from_length "Td" "Td 3 Tr"
                (replace_from "Tm" "Tm 3 Tr"
                   (replace_from "BT" "BT 3 Tr" stream 0) 0) 0) as L3.
  cbn in L1, L2, L3.
  destruct (occursb "BT" stream) eqn:H1.
  { pose proof (replace_from_longer "BT" "BT 3 Tr" stream) as G.
    cbn in G. specialize (G ltac:(lia) H1). lia. }
  rewrite (replace_from_absent _ _ _ H1) in *.
  destruct (occursb "Tm" stream) eqn:H2.
  { pose proof (replace_from_longer "Tm" "Tm 3 Tr" stream) as G.
    cbn in G. specialize (G ltac:(lia) H2). lia. }
  rewrite (replace_from_absent _ _ _ H2) in *.
  destruct (occursb "Td" stream) eqn:H3; [|done].
  pose proof (replace_from_longer "Td" "Td 3 Tr" stream) as G.
  cbn in G. specialize (G ltac:(lia) H3). lia.
Qed.

Lemma hide_text_fixed (stream : string) :
  hide_text stream = stream ↔ no_text_operator stream = true.
Proof.
  split.
  - intros Hfix. apply hide_text_same_length. by rewrite Hfix.
  - unfold no_text_operator. rewrite !andb_true_iff, !negb_true_iff.
    intros [[H1 H2] H3]. unfold hide_text, replace.
    by rewrite (replace_from_absent _ _ _ H1), (replace_from_absent _ _ _ H2),
      (replace_from_absent _ _ _ H3).
Qed.

(** X1. The rewriting of one content stream leaves it as it is when the
    stream has none of [BT], [Tm] and [Td], and makes it longer otherwise. *)
Theorem hide_text_changes (stream : string) :
  (no_text_operator stream = true → hide_text stream = stream)
  ∧ (no_text_operator stream = false →
     (String.length stream < String.length (hide_text stream))%nat).
Proof.
  split; [apply hide_text_fixed|]. intros Hop.
  pose proof (hide_text_length stream).
  destruct (decide (String.length (hide_text stream) = String.length stream))
    as [Heq%hide_text_same_length|]; [congruence|lia].
Qed.

(** ** [_hide_page_text] on the document *)

Lemma updateStream_id (doc : Doc) (x : Z) (st : string) :
  streams doc !! x = Some st → updateStream doc x st = doc.
Proof.
  intros Hx. unfold updateStream. rewrite insert_id by done. by destruct doc.
Qed.

Lemma hide_streams_frame (xs : list Z) (doc doc' : Doc) (o : result ()) :
  hide_streams xs doc = (o, doc') →
  images doc' = images doc
  ∧ (∀ x, x ∉ xs → streams doc' !! x = streams doc !! x)
  ∧ (∀ x, is_Some (streams doc' !! x) ↔ is_Some (streams doc !! x)).
Proof.
  revert doc. induction xs as [|y xs IH]; intros doc; cbn.
  { by intros [= _ <-]. }
  destruct (streams doc !! y) as [st|] eqn:Hy; [|by intros [= _ <-]].
  intros (Him & Hout & Hdom)%IH. split_and!.
  - done.
  - intros x [Hxy Hx]%not_elem_of_cons. rewrite Hout by done.
    cbn. by rewrite lookup_insert_ne.
  - intros x. rewrite Hdom. cbn. destruct (decide (x = y)) as [->|Hxy].
    + rewrite lookup_insert_eq, Hy. split; eauto.
    + by rewrite lookup_insert_ne.
Qed.

Lemma hide_streams_Ok (xs : list Z) (doc doc' : Doc) :
  NoDup xs →
  hide_streams xs doc = (Ok (), doc') →
  ∀ x, x ∈ xs → streams doc' !! x = hide_text <$> streams doc !! x.
Proof.
  revert doc. induction xs as [|y xs IH]; intros doc Hnd; cbn.
  { by intros _ x ?%elem_of_nil. }
  apply NoDup_cons in Hnd as [Hy Hnd].
  destruct (streams doc !! y) as [st|] eqn:Hst; [|done].
  intros Hrest x [->|Hx]%elem_of_cons.
  - destruct (hide_streams_frame _ _ _ _ Hrest) as (_ & Hout & _).
    rewrite Hout by done. cbn. by rewrite lookup_insert_eq, Hst.
  - rewrite (IH _ Hnd Hrest x Hx). cbn.
    rewrite lookup_insert_ne; [done|]. by intros ->.
Qed.

(** X2. [_hide_page_text] touches the content streams of the page only: the
    image objects and every other stream of the document are as before, no
    stream is added or removed, and when it returns, each content stream
    (listed once) holds its rewritten text. *)
Theorem hide_page_text_frame (page : Page) (doc doc' : Doc) :
  _hide_page_text page doc = (Ok (), doc') →
  images doc' = images doc
  ∧ (∀ x, x ∉ contents page → streams doc' !! x = streams doc !! x)
  ∧ (∀ x, is_Some (streams doc' !! x) ↔ is_Some (streams doc !! x))
  ∧ (NoDup (contents page) →
     ∀ x, x ∈ contents page →
       streams doc' !! x = hide_text <$> streams doc !! x).
Proof.
  unfold _hide_page_text. intros Hhide.
  destruct (hide_streams_frame _ _ _ _ Hhide) as (? & ? & ?).
  split_and!; [done..|]. intros Hnd. by apply hide_streams_Ok.
Qed.

Lemma hide_streams_noop (xs : list Z) (doc : Doc) :
  (∀ x, x ∈ xs →
     ∃ st, streams doc !! x = Some st ∧ no_text_operator st = true) →
  hide_streams xs doc = (Ok (), doc).
Proof.
  induction xs as [|y xs IH]; intros Hall; cbn; [done|].
  destruct (Hall y) as (st & Hst & Hno); [by left|]. rewrite Hst.
  apply hide_text_fixed in Hno. rewrite Hno, updateStream_id by done.
  apply IH. intros x Hx. apply Hall. by right.
Qed.

(** X3. On a page whose content streams have none of [BT], [Tm] and [Td],
    [_hide_page_text] returns with the document unchanged. *)
Theorem hide_page_text_noop (page : Page) (doc : Doc) :
  (∀ x, x ∈ contents page →
     ∃ st, streams doc !! x = Some st ∧ no_text_operator st = true) →
  _hide_page_text page doc = (Ok (), doc).
Proof. apply hide_streams_noop. Qed.

(** ** More on the raster loop *)

Section RasterLoop.

Variable BlockType_IMAGE : Z.
Variable convert_colour : Colorspace → Pixmap → list byte.
Variable getPNGData : Pixmap → list byte.
Variable getPixmap : Doc → Page → Rect → Q → Pixmap.
Variable getImageBbox : Doc → Page → Item → result Rect.

Local Abbreviation recover := (_recover_pixmap convert_colour).
Local Abbreviation raw_dict := (_to_raw_dict BlockType_IMAGE getPNGData).
Local Abbreviation clip_page := (_clip_page getPixmap).
Local Abbreviation loop :=
  (extract_images_loop BlockType_IMAGE convert_colour getPNGData getPixmap
     getImageBbox).
Local Abbreviation images_of :=
  (extract_images BlockType_IMAGE convert_colour getPNGData getPixmap
     getImageBbox).

(** X4. A reference with a placement box on the page and a reconstructed
    buffer that has a colour space gives one record, made of that buffer and
    that box, after the records of the references before it; the document is
    not touched by this step. *)
Theorem extract_images_kept (page : Page) (ratio : Q)
    (pre post : list Item) (item : Item) (b : Rect) (pix : Pixmap)
    (cs : Colorspace) (acc : list ImageRecord) (doc doc' : Doc) :
  image_list page = pre ++ item :: post →
  loop page ratio pre [] doc = (Ok acc, doc') →
  getImageBbox doc' page (set_last_0 item) = Ok b →
  intersects b (rect page) = true →
  recover doc' (set_last_0 item) = Ok pix →
  colorspace pix = Some cs →
  images_of page ratio doc
  = loop page ratio post (acc ++ [raw_dict pix b]) doc'.
Proof.
  intros Hl Hpre Hb Hi Hpix Hcs. unfold extract_images.
  rewrite Hl, loop_app, Hpre. cbn [extract_images_loop].
  by rewrite Hb, Hi, Hpix, Hcs.
Qed.

(** X5. Only the [ValueError] of the placement computation is caught: any
    other exception of it, and any exception of [_recover_pixmap] for a
    reference on the page, ends the call with that exception, and the
    records collected so far are not returned. *)
Theorem extract_images_raises (page : Page) (ratio : Q)
    (pre post : list Item) (item : Item) (e : exn)
    (acc : list ImageRecord) (doc doc' : Doc) :
  image_list page = pre ++ item :: post →
  loop page ratio pre [] doc = (Ok acc, doc') →
  (getImageBbox doc' page (set_last_0 item) = Raise e ∧ e ≠ ValueError)
  ∨ (∃ b, getImageBbox doc' page (set_last_0 item) = Ok b
          ∧ intersects b (rect page) = true
          ∧ recover doc' (set_last_0 item) = Raise e) →
  images_of page ratio doc = (Raise e, doc').
Proof.
  intros Hl Hpre Hraise. unfold extract_images.
  rewrite Hl, loop_app, Hpre. cbn [extract_images_loop].
  destruct Hraise as [[Hb He]|(b & Hb & Hi & Hpix)].
  - rewrite Hb. by destruct e.
  - by rewrite Hb, Hi, Hpix.
Qed.

Lemma loop_all_skipped (page : Page) (ratio : Q) (items : list Item)
    (acc : list ImageRecord) (doc : Doc) :
  (∀ item, item ∈ items → skipped getImageBbox page item doc) →
  loop page ratio items acc doc = (Ok acc, doc).
Proof.
  induction items as [|item items IH]; intros Hall; [done|].
  rewrite loop_skipped by (apply Hall; by left).
  apply IH. intros it Hit. apply Hall. by right.
Qed.

(** X6. When every reference of the page has no valid placement or lies
    outside the page, [extract_images] returns the empty list and leaves the
    document unchanged. *)
Theorem extract_images_all_skipped (page : Page) (ratio : Q) (doc : Doc) :
  (∀ item, item ∈ image_list page → skipped getImageBbox page item doc) →
  images_of page ratio doc = (Ok [], doc).
Proof. apply loop_all_skipped. Qed.

Lemma clip_page_state (page : Page) (bbox : option Rect) (zoom : Q)
    (doc doc' : Doc) (o : result Pixmap) :
  clip_page page bbox zoom doc = (o, doc') →
  ∃ o', _hide_page_text page doc = (o', doc').
Proof.
  unfold _clip_page. destruct (_hide_page_text page doc) as [[[]|e] d];
    intros [= _ <-]; eauto.
Qed.

Lemma loop_records (page : Page) (ratio : Q) (items : list Item)
    (acc recs : list ImageRecord) (doc doc' : Doc) :
  loop page ratio items acc doc = (Ok recs, doc') →
  ∃ new, recs = acc ++ new
         ∧ (length new ≤ length items)%nat
         ∧ Forall (loop_record BlockType_IMAGE getImageBbox page items) new.
Proof.
  revert acc doc. induction items as [|item items IH]; intros acc doc.
  { cbn. intros [= <- _]. exists []. by rewrite app_nil_r. }
  assert (∀ acc d, loop page ratio items acc d = (Ok recs, doc') →
            ∃ new, recs = acc ++ new
              ∧ (length new ≤ length (item :: items))%nat
              ∧ Forall (loop_record BlockType_IMAGE getImageBbox page (item :: items)) new) as IH'.
  { intros acc0 d (new & -> & Hlen & Hall)%IH. exists new.
    split_and!; [done|cbn; lia|].
    eapply Forall_impl; [done|].
    intros r (? & ? & ? & it & d' & ? & ?). split_and!; try done.
    exists it, d'. split; [by right|done]. }
  cbn [extract_images_loop].
  destruct (getImageBbox doc page (set_last_0 item)) as [b|[]] eqn:Hb;
    [|by apply IH'|done].
  destruct (intersects b (rect page)) eqn:Hi; cbn [negb]; [|by apply IH'].
  destruct (recover doc (set_last_0 item)) as [pix|] eqn:Hpix; [|done].
  destruct (match colorspace pix with
            | Some _ => _ | None => _ end) as [[pix'|] doc1]; [|done].
  intros (new & -> & Hlen & Hall)%IH.
  exists (raw_dict pix' b :: new). split_and!.
  - by rewrite <- app_assoc.
  - cbn. lia.
  - constructor.
    + split_and!; try done. exists item, doc. split; [by left|done].
    + eapply Forall_impl; [done|].
      intros r (? & ? & ? & it & d' & ? & ?). split_and!; try done.
      exists it, d'. split; [by right|done].
Qed.

(** X7. When [extract_images] returns, it has at most one record per
    reference of the page, and each record is tagged as an image with
    extension [png] and carries the placement box of a reference of the
    page, a box that intersects the page. *)
Theorem extract_images_records (page : Page) (ratio : Q)
    (recs : list ImageRecord) (doc doc' : Doc) :
  images_of page ratio doc = (Ok recs, doc') →
  (length recs ≤ length (image_list page))%nat
  ∧ Forall (loop_record BlockType_IMAGE getImageBbox page (image_list page)) recs.
Proof. by intros (new & -> & ? & ?)%loop_records. Qed.

Lemma loop_doc_frame (page : Page) (ratio : Q) (items : list Item)
    (acc : list ImageRecord) (doc : Doc) :
  images (loop page ratio items acc doc).2 = images doc
  ∧ (∀ x, x ∉ contents page →
       streams (loop page ratio items acc doc).2 !! x = streams doc !! x)
  ∧ (∀ x, is_Some (streams (loop page ratio items acc doc).2 !! x)
          ↔ is_Some (streams doc !! x)).
Proof.
  revert acc doc. induction items as [|item items IH]; intros acc doc; [done|].
  cbn [extract_images_loop].
  destruct (getImageBbox doc page (set_last_0 item)) as [b|[]] eqn:Hb;
    [|by apply IH|done].
  destruct (intersects b (rect page)) eqn:Hi; cbn [negb]; [|by apply IH].
  destruct (recover doc (set_last_0 item)) as [pix|] eqn:Hpix; [|done].
  destruct (colorspace pix) as [cs|]; [by apply IH|].
  destruct (clip_page page (Some b) ratio doc) as [[p|e] d] eqn:Hclip;
    pose proof Hclip as [o' Hhide]%clip_page_state;
    apply hide_streams_frame in Hhide as (Him & Hout & Hdom); [|done].
  destruct (IH (acc ++ [raw_dict p b]) d) as (H1 & H2 & H3). split_and!.
  - by rewrite H1.
  - intros x Hx. by rewrite H2, Hout.
  - intros x. by rewrite H3.
Qed.

(** X8. Whatever [extract_images] does, the image objects of the document and
    every stream that is not a content stream of the page are as before, and
    no stream is added or removed. *)
Theorem extract_images_doc_frame (page : Page) (ratio : Q) (doc : Doc) :
  images (images_of page ratio doc).2 = images doc
  ∧ (∀ x, x ∉ contents page →
       streams (images_of page ratio doc).2 !! x = streams doc !! x)
  ∧ (∀ x, is_Some (streams (images_of page ratio doc).2 !! x)
          ↔ is_Some (streams doc !! x)).
Proof. apply loop_doc_frame. Qed.

Lemma loop_no_text (page : Page) (ratio : Q) (items : list Item)
    (acc : list ImageRecord) (doc : Doc) :
  _hide_page_text page doc = (Ok (), doc) →
  (loop page ratio items acc doc).2 = doc.
Proof.
  intros Hhide. revert acc. induction items as [|item items IH]; intros acc;
    [done|].
  cbn [extract_images_loop].
  destruct (getImageBbox doc page (set_last_0 item)) as [b|[]] eqn:Hb;
    [|by apply IH|done].
  destruct (intersects b (rect page)) eqn:Hi; cbn [negb]; [|by apply IH].
  destruct (recover doc (set_last_0 item)) as [pix|] eqn:Hpix; [|done].
  destruct (colorspace pix) as [cs|]; [by apply IH|].
  unfold _clip_page. rewrite Hhide. by apply IH.
Qed.

(** X9. On a page whose content streams have none of [BT], [Tm] and [Td],
    [extract_images] leaves the document unchanged, also when it clips the
    page for images that carry alpha values only. *)
Theorem extract_images_no_text (page : Page) (ratio : Q) (doc : Doc) :
  (∀ x, x ∈ contents page →
     ∃ st, streams doc !! x = Some st ∧ no_text_operator st = true) →
  (images_of page ratio doc).2 = doc.
Proof. intros Hno. by apply loop_no_text, hide_streams_noop. Qed.

End RasterLoop.

(** ** More on the reconstruction of a buffer *)

Lemma binarize1_idemp (b : byte) : binarize1 (binarize1 b) = binarize1 b.
Proof. by destruct (binarize1_cases b) as [[_ ->]|[_ ->]]. Qed.

(** X10. The soft mask loop keeps the length of the byte array, maps each
    sample on its own (255 above 0, 0 stays), and running it again changes
    nothing. *)
Theorem binarize_loop (ba : list byte) :
  length (binarize ba) = length ba
  ∧ (∀ i b, ba !! i = Some b →
       binarize ba !! i = Some (if byte_gt0 b then "255"%byte else b))
  ∧ binarize (binarize ba) = binarize ba.
Proof.
  rewrite !binarize_fmap. split_and!.
  - by rewrite length_fmap.
  - intros i b Hb. by rewrite list_lookup_fmap, Hb.
  - rewrite <- list_fmap_compose. apply list_fmap_ext.
    intros _ b _. apply binarize1_idemp.
Qed.

Lemma mul255_255 (c : byte) : mul255 c "255"%byte = c.
Proof. by destruct c. Qed.

Lemma mul255_0 (c : byte) : mul255 c "000"%byte = "000"%byte.
Proof. by destruct c. Qed.

Lemma mul255_binary (c a : byte) :
  a = "000"%byte ∨ a = "255"%byte →
  mul255 c a = if byte_gt0 a then c else "000"%byte.
Proof. intros [->| ->]; [apply mul255_0|apply mul255_255]. Qed.

(** Sample [j] of the premultiplied colour samples is sample [j] multiplied
    by the alpha value of its pixel, [j / n]. *)
Lemma premultiply_lookup (n : nat) (col al : list byte) (j : nat)
    (c a : byte) :
  (0 < n)%nat →
  col !! j = Some c → al !! (j / n)%nat = Some a →
  premultiply n col al !! j = Some (mul255 c a).
Proof.
  intros Hn. revert col j.
  induction al as [|a0 al IH]; intros col j Hc Ha; [done|].
  cbn [premultiply]. pose proof (lookup_lt_Some _ _ _ Hc) as Hj.
  destruct (decide (j < n)%nat) as [Hlt|Hge].
  - rewrite Nat.div_small in Ha by done. injection Ha as ->.
    rewrite lookup_app_l by (rewrite length_fmap, length_take; lia).
    by rewrite list_lookup_fmap, lookup_take_lt, Hc by done.
  - rewrite lookup_app_r by (rewrite length_fmap, length_take; lia).
    rewrite length_fmap, length_take, Nat.min_l by lia.
    assert (j / n = S ((j - n) / n))%nat as Hdiv.
    { replace j with (1 * n + (j - n))%nat at 1 by lia.
      rewrite Nat.div_add_l by lia. lia. }
    rewrite Hdiv in Ha. apply IH; [|done].
    rewrite lookup_drop. by replace (n + (j - n))%nat with j by lia.
Qed.

Section RecoverMore.

Variable convert_colour : Colorspace → Pixmap → list byte.

Local Abbreviation recover := (_recover_pixmap convert_colour).

Lemma setAlpha_shape (p q : Pixmap) (ba : list byte) :
  setAlpha p ba = Ok q →
  width q = width p ∧ height q = height p
  ∧ colour q = premultiply (pix_n p) (colour p) (take (area p) ba).
Proof.
  unfold setAlpha. destruct (alpha p); [|done].
  destruct (length ba <? area p)%nat; [done|].
  by intros [= <-].
Qed.

(** X11. The buffer that [_recover_pixmap] returns has the width and height
    of the base image.  When the base image has no colour space, or one
    named as Gray or RGB are, its colour space is that of the base image;
    its colour samples are those of the base image without a soft mask,
    and with one the samples of a pixel are kept where its alpha value is
    255 and are 0 where it is 0. *)
Theorem recover_pixmap_shape (doc : Doc) (item : Item) (pix : Pixmap) :
  recover doc item = Ok pix →
  ∃ base, images doc !! xref item = Some base
    ∧ width pix = width base ∧ height pix = height base
    ∧ (match colorspace base with
       | None => True
       | Some cs => cs_name cs = cs_name csGRAY ∨ cs_name cs = cs_name csRGB
       end →
       colorspace pix = colorspace base
       ∧ (smask item ≤ 0 → colour pix = colour base)
       ∧ (0 < smask item →
          ∃ al, alpha pix = Some al
            ∧ ∀ j c a, (0 < pix_n base)%nat →
                colour base !! j = Some c →
                al !! (j / pix_n base)%nat = Some a →
                colour pix !! j
                = Some (if byte_gt0 a then c else "000"%byte))).
Proof.
  unfold _recover_pixmap. cbv zeta.
  intros (base & Hbase%Pixmap_of_xref_Ok & (mid & Hmid & Hpix)%bind_Ok)%bind_Ok.
  exists base. split; [done|].
  assert (width mid = width base ∧ height mid = height base
          ∧ colorspace mid = colorspace base
          ∧ (smask item ≤ 0 → colour mid = colour base)
          ∧ (0 < smask item →
             ∃ al, alpha mid = Some al
               ∧ Forall (λ b, b = "000"%byte ∨ b = "255"%byte) al
               ∧ colour mid = premultiply (pix_n base) (colour base) al))
    as (Hw & Hh & Hcs & Hplain & Hmask).
  { destruct (Z.ltb_spec 0 (smask item)) as [Hs|Hs].
    - apply bind_Ok in Hmid as (m & _ & Hset).
      pose proof (setAlpha_shape _ _ _ Hset) as (? & ? & Hcol).
      apply setAlpha_inv in Hset as [? Hal].
      split_and!; [done..|lia|]. intros _.
      eexists. split_and!; [done| |done].
      rewrite binarize_fmap. apply Forall_take, Forall_fmap, Forall_forall.
      intros s _. cbn.
      destruct (binarize1_cases s) as [[_ ->]|[_ ->]]; auto.
    - injection Hmid as <-. split_and!; [done..|lia]. }
  assert (width pix = width mid ∧ height pix = height mid
          ∧ alpha pix = alpha mid) as (Hw' & Hh' & Hal').
  { destruct (colorspace mid) as [cs|]; [|by injection Hpix as <-].
    destruct (negb _); by injection Hpix as <-. }
  rewrite Hw', Hh', Hw, Hh. split_and!; [done..|]. intros Hok.
  assert (pix = mid) as ->.
  { rewrite Hcs in Hpix. destruct (colorspace base) as [cs|];
      [|by injection Hpix as <-].
    rewrite bool_decide_eq_true_2 in Hpix by (destruct Hok; set_solver).
    by injection Hpix as <-. }
  split_and!; [done..|]. intros (al & Hal & Hbin & Hcol)%Hmask.
  exists al. split; [done|]. intros j c a Hn Hc Ha.
  rewrite Hcol, (premultiply_lookup _ _ _ _ c a) by done.
  rewrite mul255_binary; [done|].
  rewrite Forall_lookup in Hbin. by eapply Hbin.
Qed.

(** X12. Without a soft mask ([smask <= 0]) a base image that has no colour
    space, or one named as Gray or RGB are, is returned as it was decoded. *)
Theorem recover_pixmap_plain (doc : Doc) (item : Item) (base : Pixmap) :
  images doc !! xref item = Some base →
  smask item ≤ 0 →
  match colorspace base with
  | None => True
  | Some cs => cs_name cs = cs_name csGRAY ∨ cs_name cs = cs_name csRGB
  end →
  recover doc item = Ok base.
Proof.
  intros Hbase Hs Hcs. unfold _recover_pixmap, Pixmap_of_xref. cbv zeta.
  rewrite Hbase. cbn. rewrite (proj2 (Z.ltb_ge 0 (smask item))) by done. cbn.
  destruct (colorspace base) as [cs|]; [|done].
  rewrite bool_decide_eq_true_2; [done|]. destruct Hcs; set_solver.
Qed.

End RecoverMore.

(** ** The clip of [_clip_page] and the adjacency of contour boxes *)

Ltac rect_cases :=
  repeat (match goal with
          | |- context [?a =? ?b] => destruct (Z.eqb_spec a b)
          | |- context [?a <? ?b] => destruct (Z.ltb_spec a b)
          end; cbn in *).

Lemma intersects_inv (a b : Rect) :
  intersects a b = true →
  non_degenerate a ∧ non_degenerate b
  ∧ rect_and a b = mkRect (Z.max (x0 a) (x0 b)) (Z.max (y0 a) (y0 b))
                          (Z.min (x1 a) (x1 b)) (Z.min (y1 a) (y1 b))
  ∧ non_degenerate (rect_and a b).
Proof.
  unfold intersects, rect_and, intersect, fz_intersect_rect, isEmpty,
    isInfinite, non_degenerate.
  destruct a as [ax0 ay0 ax1 ay1], b as [bx0 by0 bx1 by1]. cbn.
  rect_cases; try done; intros _; repeat split; (done || lia).
Qed.

Section ClipMore.

Variable getPixmap : Doc → Page → Rect → Q → Pixmap.

(** X13. For a box that intersects the page and a page whose text can be
    hidden, [_clip_page] renders the common part of the box and the page
    rect, a box that encloses an area and lies within both; the rendering
    is done on the document with the text hidden, which is the state left
    behind. *)
Theorem clip_page_region (page : Page) (b : Rect) (zoom : Q)
    (doc hidden : Doc) :
  intersects b (rect page) = true →
  _hide_page_text page doc = (Ok (), hidden) →
  _clip_page getPixmap page (Some b) zoom doc
    = (Ok (getPixmap hidden page (rect_and b (rect page)) zoom), hidden)
  ∧ non_degenerate (rect_and b (rect page))
  ∧ inside (rect_and b (rect page)) b
  ∧ inside (rect_and b (rect page)) (rect page).
Proof.
  intros (_ & _ & Hand & Hnd)%intersects_inv Hhide. split_and!.
  - unfold _clip_page. by rewrite Hhide.
  - done.
  - rewrite Hand. unfold inside. cbn. lia.
  - rewrite Hand. unfold inside. cbn. lia.
Qed.

End ClipMore.

Lemma non_degenerate_flags (r : Rect) :
  non_degenerate r → isEmpty r = false ∧ isInfinite r = false.
Proof.
  unfold non_degenerate, isEmpty, isInfinite. intros [? ?].
  rewrite !orb_false_iff, !Z.eqb_neq, !Z.ltb_ge. lia.
Qed.

Lemma rect_and_non_degenerate (a b : Rect) :
  non_degenerate a → non_degenerate b →
  rect_and a b =
  if (Z.min (x1 a) (x1 b) <? Z.max (x0 a) (x0 b))
     || (Z.min (y1 a) (y1 b) <? Z.max (y0 a) (y0 b))
  then empty_rect
  else mkRect (Z.max (x0 a) (x0 b)) (Z.max (y0 a) (y0 b))
              (Z.min (x1 a) (x1 b)) (Z.min (y1 a) (y1 b)).
Proof.
  intros [Ea Ia]%non_degenerate_flags [Eb Ib]%non_degenerate_flags.
  unfold rect_and, intersect, fz_intersect_rect.
  by rewrite Ea, Ia, Eb, Ib.
Qed.

Lemma fun_overlap (a b : Element) :
  non_degenerate (bbox a) → non_degenerate (bbox b) →
  0 ≤ x0 (bbox a) → 0 ≤ x0 (bbox b) →
  fun_ a b = true ↔ overlap (bbox a) (bbox b).
Proof.
  intros Ha Hb Ha0 Hb0. unfold fun_, overlap.
  rewrite rect_and_non_degenerate by done.
  destruct Ha, Hb.
  destruct (Z.ltb_spec (Z.min (x1 (bbox a)) (x1 (bbox b)))
              (Z.max (x0 (bbox a)) (x0 (bbox b))));
    [cbn; split; [done|lia]|].
  destruct (Z.ltb_spec (Z.min (y1 (bbox a)) (y1 (bbox b)))
              (Z.max (y0 (bbox a)) (y0 (bbox b))));
    [cbn; split; [done|lia]|].
  cbn. split; [done|]. intros _. unfold rect_bool. cbn.
  rewrite negb_true_iff, andb_false_iff, !Z.eqb_neq. lia.
Qed.

(** X14. For contour boxes (enclosing an area, at non-negative columns) the
    lambda handed to [group] is true exactly when the closed boxes have a
    common point, boxes that only touch included; it does not depend on the
    order of its two arguments. *)
Theorem fun_adjacency (a b : Element) :
  non_degenerate (bbox a) → non_degenerate (bbox b) →
  0 ≤ x0 (bbox a) → 0 ≤ x0 (bbox b) →
  (fun_ a b = true ↔ overlap (bbox a) (bbox b))
  ∧ fun_ a b = fun_ b a.
Proof.
  intros Ha Hb Ha0 Hb0. split; [by apply fun_overlap|].
  pose proof (fun_overlap a b Ha Hb Ha0 Hb0) as Hab.
  pose proof (fun_overlap b a Hb Ha Hb0 Ha0) as Hba.
  assert (overlap (bbox a) (bbox b) ↔ overlap (bbox b) (bbox a)) as Hsym
    by (unfold overlap; lia).
  destruct (fun_ a b), (fun_ b a); try done; [symmetry|]; tauto.
Qed.

(** ** More on the blanking of exclusion areas *)

Lemma set_slice_length {A : Type} (start stop : Z) (f : A → A) (l : list A) :
  length (set_slice start stop f l) = length l.
Proof. unfold set_slice. apply length_imap. Qed.

Lemma set_slice_comm {A : Type} (s t s' t' : Z) (f g : A → A) (l : list A) :
  (∀ x, f (g x) = g (f x)) →
  set_slice s t f (set_slice s' t' g l) = set_slice s' t' g (set_slice s t f l).
Proof.
  intros Hfg. apply list_eq. intros i.
  rewrite !lookup_set_slice, !set_slice_length.
  destruct (l !! i) as [x|]; [cbn|done].
  repeat case_bool_decide; by rewrite ?Hfg.
Qed.

Lemma set_slice_idemp {A : Type} (s t : Z) (f : A → A) (l : list A) :
  (∀ x, f (f x) = f x) →
  set_slice s t f (set_slice s t f l) = set_slice s t f l.
Proof.
  intros Hf. apply list_eq. intros i.
  rewrite !lookup_set_slice, !set_slice_length.
  destruct (l !! i) as [x|]; [cbn|done].
  repeat case_bool_decide; by rewrite ?Hf.
Qed.

Lemma blank_area_comm (gray : Gray) (a b : Rect) :
  blank_area (blank_area gray a) b = blank_area (blank_area gray b) a.
Proof.
  unfold blank_area. apply set_slice_comm. intros row.
  by apply set_slice_comm.
Qed.

Lemma blank_area_idemp (gray : Gray) (a : Rect) :
  blank_area (blank_area gray a) a = blank_area gray a.
Proof.
  unfold blank_area. apply set_slice_idemp. intros row.
  by apply set_slice_idemp.
Qed.

Lemma foldl_blank_area_perm (ex ex' : list Rect) :
  ex ≡ₚ ex' → ∀ gray, foldl blank_area gray ex = foldl blank_area gray ex'.
Proof.
  induction 1 as [|a ex ex' _ IH|a b ex|ex1 ex2 ex3 _ IH1 _ IH2];
    intros gray; cbn.
  - done.
  - apply IH.
  - by rewrite blank_area_comm.
  - by rewrite IH1.
Qed.

Lemma blank_area_rectangular (gray : Gray) (cols : nat) (b : Rect) :
  rectangular gray cols → rectangular (blank_area gray b) cols.
Proof.
  unfold rectangular. rewrite !Forall_lookup. intros Hrect r row.
  unfold blank_area. rewrite lookup_set_slice.
  destruct (gray !! r) as [row0|] eqn:Hr; [cbn|done].
  intros [= <-]. case_bool_decide; rewrite ?set_slice_length; eauto.
Qed.

(** X15. Blanking an exclusion area keeps the shape of the gray image and
    writes nothing but white: every pixel either keeps its value or becomes
    255. *)
Theorem blank_area_writes_white (gray : Gray) (cols : nat) (b : Rect) :
  length (blank_area gray b) = length gray
  ∧ (rectangular gray cols → rectangular (blank_area gray b) cols)
  ∧ (∀ r c : nat,
       pixel (blank_area gray b) r c = pixel gray r c
       ∨ (is_Some (pixel gray r c)
          ∧ pixel (blank_area gray b) r c = Some "255"%byte)).
Proof.
  split_and!.
  - apply set_slice_length.
  - apply blank_area_rectangular.
  - intros r c. rewrite pixel_blank_area. unfold pixel.
    destruct (gray !! r) as [row|]; [cbn|by left].
    case_bool_decide; [|by left]. rewrite lookup_set_slice.
    destruct (row !! c) as [v|]; [cbn|by left].
    case_bool_decide; [right; eauto|by left].
Qed.

(** X16. For a box at least two pixels away from the top and left edges whose
    far corner is not before [-2], the blanked pixels are exactly those of
    the box padded by two pixels: they become 255 and every other pixel
    keeps its value. *)
Theorem blank_area_exact (gray : Gray) (cols : nat) (b : Rect) :
  rectangular gray cols →
  2 ≤ x0 b → 2 ≤ y0 b → -2 ≤ x1 b → -2 ≤ y1 b →
  ∀ (r c : nat) (v : byte),
    pixel gray r c = Some v →
    pixel (blank_area gray b) r c
    = Some (if decide (in_padded b r c) then "255"%byte else v).
Proof.
  intros Hrect Hx0 Hy0 Hx1 Hy1 r c v. unfold rectangular in Hrect.
  rewrite Forall_lookup in Hrect.
  rewrite pixel_blank_area. unfold pixel, in_padded.
  destruct (gray !! r) as [row|] eqn:Hrow; [cbn|done]. intros Hv.
  pose proof (lookup_lt_Some _ _ _ Hrow) as Hr.
  pose proof (lookup_lt_Some _ _ _ Hv) as Hc.
  pose proof (Hrect _ _ Hrow) as Hlen.
  assert (∀ lo hi len i : Z, 0 ≤ lo → 0 ≤ hi → 0 ≤ i < len →
            (slice_bound lo len ≤ i < slice_bound hi len ↔ lo ≤ i < hi))
    as Hslice by (intros; slice_bounds).
  rewrite lookup_set_slice, Hv. cbn.
  case_bool_decide as Hin_r.
  - apply Hslice in Hin_r; [|lia..].
    case_bool_decide as Hin_c.
    + apply Hslice in Hin_c; [|lia..]. by rewrite decide_True.
    + rewrite decide_False; [done|]. intros [_ Hcc]. apply Hin_c.
      apply Hslice; lia.
  - rewrite decide_False; [done|]. intros [Hrr _]. apply Hin_r.
    apply Hslice; lia.
Qed.

(** ** More on the vector pipeline *)

Lemma group_length (adj : Element → Element → bool) (l : list Element) :
  (length (group adj l) ≤ length l)%nat.
Proof.
  unfold group. induction l as [|e l IH]; cbn; [done|].
  pose proof (length_filter (λ c, ¬ touches adj e c)
                (foldr (add_region adj) [] l)). lia.
Qed.

Section VectorMore.

Variable BlockType_IMAGE : Z.
Variable getPNGData : Pixmap → list byte.
Variable getPixmap : Doc → Page → Rect → Q → Pixmap.
Variable decode_gray : list byte → Gray.
Variable bounding_rects : Gray → list (Z * Z * Z * Z).

Local Abbreviation detect :=
  (_detect_svg_contours getPNGData getPixmap decode_gray bounding_rects).
Local Abbreviation vector :=
  (extract_vector_graphics BlockType_IMAGE getPNGData getPixmap decode_gray
     bounding_rects).
Local Abbreviation contours_of :=
  (contours_of getPNGData getPixmap decode_gray bounding_rects).

(** X17. The order of the exclusion areas does not matter, and neither does
    listing one twice in a row: the blanked gray image is the same, and so
    are the detected contours and the result of [extract_vector_graphics]. *)
Theorem exclude_areas_order (page : Page) (ex ex' : list Rect) (ratio : Q)
    (doc : Doc) :
  ex ≡ₚ ex' →
  (∀ gray, foldl blank_area gray ex = foldl blank_area gray ex')
  ∧ (∀ gray a, blank_area (blank_area gray a) a = blank_area gray a)
  ∧ detect page ex doc = detect page ex' doc
  ∧ vector page ex ratio doc = vector page ex' ratio doc.
Proof.
  intros Hperm.
  pose proof (foldl_blank_area_perm ex ex' Hperm) as Hfold.
  assert (detect page ex doc = detect page ex' doc) as Hdet.
  { unfold _detect_svg_contours.
    destruct (_clip_page _ _ _ _ _) as [[pix|e] d]; [|done].
    by rewrite Hfold. }
  split_and!; [done|apply blank_area_idemp|done|].
  unfold extract_vector_graphics. by rewrite Hdet.
Qed.

(** X18. A call of [extract_vector_graphics] that returns has hidden the
    text of the page: the document it leaves is the one [_hide_page_text]
    leaves, with the image objects as before and (for content streams
    listed once) every content stream rewritten. *)
Theorem extract_vector_graphics_effect (page : Page) (ex : list Rect)
    (ratio : Q) (doc doc' : Doc) (recs : list ImageRecord) :
  vector page ex ratio doc = (Ok recs, doc') →
  _hide_page_text page doc = (Ok (), doc')
  ∧ images doc' = images doc
  ∧ (NoDup (contents page) →
     ∀ x, x ∈ contents page →
       streams doc' !! x = hide_text <$> streams doc !! x).
Proof.
  unfold extract_vector_graphics, _detect_svg_contours, _clip_page.
  destruct (_hide_page_text page doc) as [[[]|e0] d] eqn:Hhide; cbn; [|done].
  intros [= _ <-]. split; [done|].
  destruct (hide_streams_frame _ _ _ _ Hhide) as (Him & _ & _).
  split; [done|]. intros Hnd. by apply hide_streams_Ok.
Qed.

(** X19. When [extract_vector_graphics] returns, it has at most one record
    per contour, none for no contour, and the box of every contour lies
    within the box of one of the records (with [Collection.group] as the
    connected clusters and [Collection.bbox] as the union of the spec). *)
Theorem extract_vector_graphics_covers (page : Page) (ex : list Rect)
    (ratio : Q) (doc hidden : Doc) (recs : list ImageRecord) :
  vector page ex ratio doc = (Ok recs, hidden) →
  (length recs ≤ length (contours_of page ex hidden))%nat
  ∧ (contours_of page ex hidden = [] → recs = [])
  ∧ (∀ x y w h, (x, y, w, h) ∈ contours_of page ex hidden →
       ∃ r, r ∈ recs ∧ inside (mkRect x y (x + w) (y + h)) (r_bbox r)).
Proof.
  unfold extract_vector_graphics, _detect_svg_contours, _clip_page,
    contours_of.
  destruct (_hide_page_text page doc) as [[[]|e0] d]; cbn; [|done].
  intros [= <- <-].
  set (contours := bounding_rects _).
  set (elements := (λ '(x, y, w, h), update_bbox (mkRect x y (x + w) (y + h)))
                     <$> contours).
  assert (length elements = length contours) as Hlen
    by (unfold elements; by rewrite length_fmap).
  split_and!.
  - rewrite length_fmap, <- Hlen. apply group_length.
  - intros Hnil. unfold elements. by rewrite Hnil.
  - intros x y w h Hin.
    pose proof (group_partition fun_ elements) as Hp.
    assert (update_bbox (mkRect x y (x + w) (y + h)) ∈ elements) as Hel.
    { unfold elements. apply list_elem_of_fmap. by exists (x, y, w, h). }
    apply (part_cover _ _ _ Hp) in Hel as (c & Hc & Hec).
    eexists. split.
    + apply list_elem_of_fmap. exists c. split; [reflexivity|done].
    + cbn. pose proof (part_nonempty _ _ _ Hp c Hc) as Hne.
      destruct (Collection_bbox_union c Hne) as (Hall & _).
      specialize (Hall _ Hec). unfold inside, _to_raw_dict, update_bbox in *.
      cbn [x0 y0 x1 y1 r_bbox bbox] in *. lia.
Qed.

End VectorMore.

(** ** The further properties on the concrete document *)

Example hide_text_run :
  hide_text "BT /F1 12 Tf 72 712 Td (Hi) Tj ET"
  = "BT 3 Tr /F1 12 Tf 72 712 Td 3 Tr (Hi) Tj ET"
  ∧ hide_text "q 200 0 0 100 10 10 cm /Im0 Do Q"
    = "q 200 0 0 100 10 10 cm /Im0 Do Q".
Proof. split; vm_compute; reflexivity. Qed.

Lemma hide_page_text_frame_witness :
  ∃ doc', _hide_page_text (demo_page []) demo_doc = (Ok (), doc')
    ∧ images doc' = images demo_doc
    ∧ (∀ x, x ∉ contents (demo_page []) →
         streams doc' !! x = streams demo_doc !! x)
    ∧ (∀ x, is_Some (streams doc' !! x) ↔ is_Some (streams demo_doc !! x))
    ∧ (NoDup (contents (demo_page [])) →
       ∀ x, x ∈ contents (demo_page []) →
         streams doc' !! x = hide_text <$> streams demo_doc !! x).
Proof.
  eexists. split; [vm_compute; reflexivity|].
  apply (hide_page_text_frame (demo_page []) demo_doc).
  vm_compute. reflexivity.
Defined.

Lemma demo_no_text (x : Z) :
  x ∈ contents (demo_page []) →
  ∃ st, streams demo_doc_no_text !! x = Some st
        ∧ no_text_operator st = true.
Proof.
  intros ->%list_elem_of_singleton. eexists. split; vm_compute; reflexivity.
Defined.

Lemma hide_page_text_noop_witness :
  _hide_page_text (demo_page []) demo_doc_no_text = (Ok (), demo_doc_no_text).
Proof.
  apply (hide_page_text_noop (demo_page []) demo_doc_no_text).
  exact demo_no_text.
Defined.

Lemma extract_images_kept_witness :
  ∃ acc,
    demo_images [demo_item 6 0; demo_item 5 0; demo_item 9 0]
    = extract_images_loop 1 demo_convert demo_png demo_render demo_bbox
        (demo_page [demo_item 6 0; demo_item 5 0; demo_item 9 0]) 3%Q
        [demo_item 9 0]
        (acc ++ [_to_raw_dict 1 demo_png
                   (mkPixmap (Some csRGB) 2 1
                      ["001"; "002"; "003"; "004"; "005"; "006"]%byte None)
                   (mkRect 10 10 50 50)])
        demo_doc.
Proof.
  eexists.
  apply (extract_images_kept 1 demo_convert demo_png demo_render demo_bbox
           _ _ [demo_item 6 0] [demo_item 9 0] (demo_item 5 0)
           (mkRect 10 10 50 50) _ csRGB);
    vm_compute; reflexivity.
Defined.

Lemma extract_images_raises_witness :
  demo_images [demo_item 5 0; demo_item 99 0; demo_item 9 0]
  = (Raise RuntimeError, demo_doc).
Proof.
  apply (extract_images_raises 1 demo_convert demo_png demo_render demo_bbox
           _ _ [demo_item 5 0] [demo_item 9 0] (demo_item 99 0) RuntimeError
           [_to_raw_dict 1 demo_png
              (mkPixmap (Some csRGB) 2 1
                 ["001"; "002"; "003"; "004"; "005"; "006"]%byte None)
              (mkRect 10 10 50 50)] demo_doc demo_doc).
  - vm_compute. reflexivity.
  - vm_compute. reflexivity.
  - right. exists (mkRect 10 10 50 50). split_and!; vm_compute; reflexivity.
Defined.

Lemma extract_images_all_skipped_witness :
  demo_images [demo_item 6 0; demo_item 7 0] = (Ok [], demo_doc).
Proof.
  apply (extract_images_all_skipped 1 demo_convert demo_png demo_render
           demo_bbox (demo_page [demo_item 6 0; demo_item 7 0]) 3%Q demo_doc).
  intros item Hin. apply list_elem_of_In in Hin. simpl in Hin.
  destruct Hin as [<-|[<-|[]]].
  - left. vm_compute. reflexivity.
  - right. exists (mkRect 700 900 800 1000). split; vm_compute; reflexivity.
Defined.

Lemma extract_images_records_witness :
  ∃ recs doc',
    demo_images [demo_item 5 0; demo_item 7 0; demo_item 8 0] = (Ok recs, doc')
    ∧ (length recs ≤ 3)%nat
    ∧ Forall (loop_record 1 demo_bbox
                (demo_page [demo_item 5 0; demo_item 7 0; demo_item 8 0])
                [demo_item 5 0; demo_item 7 0; demo_item 8 0]) recs.
Proof.
  eexists _, _. split; [vm_compute; reflexivity|].
  eapply (extract_images_records 1 demo_convert demo_png demo_render
            demo_bbox
            (demo_page [demo_item 5 0; demo_item 7 0; demo_item 8 0]) 3%Q _
            demo_doc).
  vm_compute. reflexivity.
Defined.

Lemma extract_images_no_text_witness :
  (extract_images 1 demo_convert demo_png demo_render demo_bbox
     (demo_page [demo_item 5 0; demo_item 8 0]) 3%Q demo_doc_no_text).2
  = demo_doc_no_text.
Proof.
  apply (extract_images_no_text 1 demo_convert demo_png demo_render demo_bbox
           (demo_page [demo_item 5 0; demo_item 8 0]) 3%Q demo_doc_no_text).
  exact demo_no_text.
Defined.

Lemma recover_pixmap_shape_witness :
  ∃ pix, _recover_pixmap demo_convert demo_doc (demo_item 5 8) = Ok pix
    ∧ ∃ base, images demo_doc !! xref (demo_item 5 8) = Some base
        ∧ width pix = width base ∧ height pix = height base
        ∧ (match colorspace base with
           | None => True
           | Some cs => cs_name cs = cs_name csGRAY ∨ cs_name cs = cs_name csRGB
           end →
           colorspace pix = colorspace base
           ∧ (smask (demo_item 5 8) ≤ 0 → colour pix = colour base)
           ∧ (0 < smask (demo_item 5 8) →
              ∃ al, alpha pix = Some al
                ∧ ∀ j c a, (0 < pix_n base)%nat →
                    colour base !! j = Some c →
                    al !! (j / pix_n base)%nat = Some a →
                    colour pix !! j
                    = Some (if byte_gt0 a then c else "000"%byte))).
Proof.
  eexists. split; [vm_compute; reflexivity|].
  apply (recover_pixmap_shape demo_convert demo_doc (demo_item 5 8)).
  vm_compute. reflexivity.
Defined.

(** A soft mask with samples 255 and 0 on the two-pixel image: the first
    pixel keeps its colour samples, those of the second are 0. *)
Example recover_pixmap_premultiplied :
  _recover_pixmap demo_convert demo_doc (demo_item 5 8)
  = Ok (mkPixmap (Some csRGB) 2 1
          ["001"; "002"; "003"; "000"; "000"; "000"]%byte
          (Some ["255"; "000"]%byte)).
Proof. vm_compute. reflexivity. Qed.

Lemma recover_pixmap_plain_witness :
  _recover_pixmap demo_convert demo_doc (demo_item 5 0)
  = Ok (mkPixmap (Some csRGB) 2 1
          ["001"; "002"; "003"; "004"; "005"; "006"]%byte None).
Proof.
  apply (recover_pixmap_plain demo_convert demo_doc (demo_item 5 0)).
  - vm_compute. reflexivity.
  - simpl. lia.
  - simpl. by right.
Defined.

Lemma clip_page_region_witness :
  ∃ hidden,
    _clip_page demo_render (demo_page []) (Some (mkRect (-20) 700 50 900)) 3%Q
      demo_doc
    = (Ok (demo_render hidden (demo_page [])
             (rect_and (mkRect (-20) 700 50 900) (rect (demo_page []))) 3%Q),
       hidden)
    ∧ rect_and (mkRect (-20) 700 50 900) (rect (demo_page []))
      = mkRect 0 700 50 792
    ∧ non_degenerate (rect_and (mkRect (-20) 700 50 900) (rect (demo_page [])))
    ∧ inside (rect_and (mkRect (-20) 700 50 900) (rect (demo_page [])))
        (mkRect (-20) 700 50 900)
    ∧ inside (rect_and (mkRect (-20) 700 50 900) (rect (demo_page [])))
        (rect (demo_page [])).
Proof.
  eexists.
  pose proof (clip_page_region demo_render (demo_page [])
                (mkRect (-20) 700 50 900) 3%Q demo_doc _ eq_refl eq_refl)
    as (H1 & H2 & H3 & H4).
  split_and!; [exact H1|reflexivity|exact H2|exact H3|exact H4].
Defined.

Lemma fun_adjacency_witness :
  (fun_ (box 0 0 10 10) (box 10 0 20 10) = true
   ↔ overlap (bbox (box 0 0 10 10)) (bbox (box 10 0 20 10)))
  ∧ fun_ (box 0 0 10 10) (box 10 0 20 10)
    = fun_ (box 10 0 20 10) (box 0 0 10 10).
Proof.
  apply (fun_adjacency (box 0 0 10 10) (box 10 0 20 10));
    unfold non_degenerate; simpl; lia.
Defined.

(** Two boxes that share an edge are adjacent; boxes one pixel apart are
    not. *)
Example fun_touching :
  fun_ (box 0 0 10 10) (box 10 0 20 10) = true
  ∧ fun_ (box 0 0 10 10) (box 11 0 20 10) = false.
Proof. split; reflexivity. Qed.

Lemma blank_area_exact_witness :
  pixel (blank_area demo_ink (mkRect 3 3 3 3)) 2 1
  = Some (if decide (in_padded (mkRect 3 3 3 3) 2 1)
          then "255"%byte else "000"%byte)
  ∧ pixel (blank_area demo_ink (mkRect 3 3 3 3)) 2 0 = Some "000"%byte.
Proof.
  assert (rectangular demo_ink 6) as Hrect by (repeat constructor).
  split.
  - apply (blank_area_exact demo_ink 6 (mkRect 3 3 3 3) Hrect);
      simpl; (lia || reflexivity).
  - rewrite (blank_area_exact demo_ink 6 (mkRect 3 3 3 3) Hrect
               ltac:(simpl; lia) ltac:(simpl; lia) ltac:(simpl; lia)
               ltac:(simpl; lia) 2 0 "000"%byte eq_refl).
    rewrite decide_False; [done|]. unfold in_padded. simpl. lia.
Defined.

Lemma exclude_areas_order_witness :
  (∀ gray, foldl blank_area gray [mkRect 3 3 4 4; mkRect 10 10 50 50]
           = foldl blank_area gray [mkRect 10 10 50 50; mkRect 3 3 4 4])
  ∧ (∀ gray a, blank_area (blank_area gray a) a = blank_area gray a)
  ∧ _detect_svg_contours demo_png demo_render demo_decode_gray
      demo_bounding_rects (demo_page []) [mkRect 3 3 4 4; mkRect 10 10 50 50]
      demo_doc
    = _detect_svg_contours demo_png demo_render demo_decode_gray
        demo_bounding_rects (demo_page [])
        [mkRect 10 10 50 50; mkRect 3 3 4 4] demo_doc
  ∧ extract_vector_graphics 1 demo_png demo_render demo_decode_gray
      demo_bounding_rects (demo_page []) [mkRect 3 3 4 4; mkRect 10 10 50 50]
      3%Q demo_doc
    = extract_vector_graphics 1 demo_png demo_render demo_decode_gray
        demo_bounding_rects (demo_page [])
        [mkRect 10 10 50 50; mkRect 3 3 4 4] 3%Q demo_doc.
Proof.
  apply (exclude_areas_order 1 demo_png demo_render demo_decode_gray
           demo_bounding_rects (demo_page [])
           [mkRect 3 3 4 4; mkRect 10 10 50 50]
           [mkRect 10 10 50 50; mkRect 3 3 4 4] 3%Q demo_doc).
  apply perm_swap.
Defined.

Lemma extract_vector_graphics_effect_witness :
  ∃ recs doc',
    extract_vector_graphics 1 demo_png demo_render demo_decode_gray
      demo_bounding_rects (demo_page []) [mkRect 10 10 50 50] 3%Q demo_doc
    = (Ok recs, doc')
    ∧ streams doc' !! 20
      = Some "BT 3 Tr /F1 12 Tf 1 0 0 1 72 712 Tm 3 Tr (Hi) Tj ET"
    ∧ _hide_page_text (demo_page []) demo_doc = (Ok (), doc')
    ∧ images doc' = images demo_doc
    ∧ (NoDup (contents (demo_page [])) →
       ∀ x, x ∈ contents (demo_page []) →
         streams doc' !! x = hide_text <$> streams demo_doc !! x).
Proof.
  eexists _, _. split; [vm_compute; reflexivity|].
  split; [vm_compute; reflexivity|].
  eapply (extract_vector_graphics_effect 1 demo_png demo_render
            demo_decode_gray demo_bounding_rects (demo_page [])
            [mkRect 10 10 50 50] 3%Q demo_doc).
  vm_compute. reflexivity.
Defined.

Lemma extract_vector_graphics_covers_witness :
  ∃ recs hidden,
    extract_vector_graphics 1 demo_png demo_render demo_decode_gray
      demo_bounding_rects (demo_page []) [mkRect 10 10 50 50] 3%Q demo_doc
    = (Ok recs, hidden)
    ∧ (length recs
       ≤ length (contours_of demo_png demo_render demo_decode_gray
                   demo_bounding_rects (demo_page []) [mkRect 10 10 50 50]
                   hidden))%nat
    ∧ (contours_of demo_png demo_render demo_decode_gray
         demo_bounding_rects (demo_page []) [mkRect 10 10 50 50] hidden = [] →
       recs = [])
    ∧ (∀ x y w h,
         (x, y, w, h) ∈ contours_of demo_png demo_render demo_decode_gray
                          demo_bounding_rects (demo_page [])
                          [mkRect 10 10 50 50] hidden →
         ∃ r, r ∈ recs ∧ inside (mkRect x y (x + w) (y + h)) (r_bbox r)).
Proof.
  eexists _, _. split; [vm_compute; reflexivity|].
  eapply (extract_vector_graphics_covers 1 demo_png demo_render
            demo_decode_gray demo_bounding_rects (demo_page [])
            [mkRect 10 10 50 50] 3%Q demo_doc).
  vm_compute. reflexivity.
Defined.
